(** * hashbin: hash-format classifiers, the validator decorator, the strategy
    holder and the option handling of the hashing services.

    Shallow embedding of the TypeScript sources:
    - src/lib/utils/is-bcrypt.util.ts, is-md5.util.ts, is-sha.util.ts and
      src/unnamed/part_004 (isArgon2): [RegExp.prototype.test] on an anchored
      pattern, after [data.toString()];
    - src/lib/utils/is-hashed-validator.decorator.ts: [IsHashed]'s [validate]
      and [mapValidationByHashType];
    - src/lib/services/bcrypt.service.ts: [BcryptService.hash] / [getSalt] and
      the [HashBin] strategy holder;
    - src/lib/services/argon2.service.ts, pbkdf2.service.ts and
      src/unnamed/part_002 (RsaService), with Node's base64 and UTF-8
      conversions the services rely on.

    JavaScript strings are sequences of UTF-16 code units, modelled as
    [list N].  External libraries (Node's Buffer and crypto, bcrypt, argon2)
    are type classes whose operations the lemmas quantify over. *)

From Stdlib Require Import List NArith ZArith Lia Zify Bool Btauto String Ascii Setoid Morphisms.
Import ListNotations.

(* ------------------------------------------------------------------ *)
(** ** JavaScript strings and values *)

(** A UTF-16 code unit. *)
Definition cunit := N.
(** A JavaScript string. *)
Definition jsstring := list cunit.

(** An ASCII string literal as a JavaScript string. *)
Definition js (s : string) : jsstring :=
  map (fun a => N_of_ascii a) (list_ascii_of_string s).

(** Code unit of an ASCII character. *)
Definition ch (a : ascii) : cunit := N_of_ascii a.

(* ------------------------------------------------------------------ *)
(** ** Regular expressions *)

(** A character class [[...]] as a list of inclusive ranges. *)
Definition ranges := list (N * N).

Definition in_ranges (rs : ranges) (c : cunit) : bool :=
  existsb (fun r => ((fst r <=? c) && (c <=? snd r))%N) rs.

Definition is_lower (c : cunit) : bool := ((97 <=? c) && (c <=? 122))%N.
Definition is_upper (c : cunit) : bool := ((65 <=? c) && (c <=? 90))%N.

(** Canonicalize of the ECMAScript regexp semantics for a non-unicode
    pattern with the [i] flag, on the ASCII letters: a lower-case letter is
    mapped to its upper case.  Every other code unit is left alone; in
    ECMAScript a code unit >= 128 is canonicalized to some code unit >= 128
    too, which makes no difference for the ASCII-only classes used here. *)
Definition canon (c : cunit) : cunit := if is_lower c then (c - 32)%N else c.

(** Two characters are matched as equal (ECMAScript: Canonicalize(a) =
    Canonicalize(b) under the [i] flag). *)
Definition ceq (ci : bool) (a b : cunit) : Prop :=
  if ci then canon a = canon b else a = b.

(** Declarative membership of a character in a class. *)
Definition class_sem (ci : bool) (rs : ranges) (c : cunit) : Prop :=
  exists m, in_ranges rs m = true /\ ceq ci m c.

(** Executable membership of a character in a class (the engine's test). *)
Definition class_test (ci : bool) (rs : ranges) (c : cunit) : bool :=
  in_ranges rs c
  || (ci && ((is_lower c && in_ranges rs (c - 32)%N)
             || (is_upper c && in_ranges rs (c + 32)%N))).

(** Regular-expression syntax as written in the sources: literal characters
    ([\$], [2], ...), classes ([[$]], [\d], [[a-fA-F0-9]]), concatenation,
    alternation ([|], groups [(?:...)] being only grouping), and the bounded
    quantifiers ([p?] is [PRep 0 1 p], [p{n}] is [PRep n n p], [p{m,n}] is
    [PRep m n p]). *)
Inductive pat :=
| PEmpty
| PChar (c : cunit)
| PClass (rs : ranges)
| PCat (p q : pat)
| PAlt (p q : pat)
| PRep (lo hi : nat) (p : pat).

(** Declarative semantics: the set of strings a pattern matches as a whole
    (between the anchors [^] and [$]). *)
Fixpoint pmatch (ci : bool) (p : pat) (s : jsstring) : Prop :=
  match p with
  | PEmpty => s = []
  | PChar c => exists d, s = [d] /\ ceq ci c d
  | PClass rs => exists d, s = [d] /\ class_sem ci rs d
  | PCat p q => exists s1 s2, s = s1 ++ s2 /\ pmatch ci p s1 /\ pmatch ci q s2
  | PAlt p q => pmatch ci p s \/ pmatch ci q s
  | PRep lo hi p =>
      exists ws, s = List.concat ws /\ lo <= List.length ws <= hi
                 /\ Forall (fun w => pmatch ci p w) ws
  end.

(** A sequence of patterns. *)
Definition pseq (ps : list pat) : pat := fold_right PCat PEmpty ps.
(** A literal string. *)
Definition plit (s : string) : pat := pseq (map PChar (js s)).
(** A range [a-b] and a single character inside a class. *)
Definition rng (a b : ascii) : N * N := (ch a, ch b).
Definition one (a : ascii) : N * N := (ch a, ch a).

(** The matching engine: a pattern is compiled to a core expression whose
    quantifiers are unrolled, and a string is matched by derivatives.  On
    patterns without back-references or look-around, the backtracking search
    of [RegExp.prototype.test] on an anchored pattern succeeds exactly when
    some way of matching the whole string exists, which is what the
    derivative matcher decides. *)
Inductive re :=
| RNil
| REps
| RSet (rs : ranges)
| RCat (r1 r2 : re)
| RAlt (r1 r2 : re).

Fixpoint lang (ci : bool) (r : re) (s : jsstring) : Prop :=
  match r with
  | RNil => False
  | REps => s = []
  | RSet rs => exists c, s = [c] /\ class_test ci rs c = true
  | RCat a b => exists s1 s2, s = s1 ++ s2 /\ lang ci a s1 /\ lang ci b s2
  | RAlt a b => lang ci a s \/ lang ci b s
  end.

(** [p{lo,hi}] unrolled: [lo] mandatory copies, then nested optional ones. *)
Fixpoint rep (lo hi : nat) (r : re) : re :=
  match hi with
  | O => match lo with O => REps | S _ => RNil end
  | S h => match lo with
           | O => RAlt (RCat r (rep O h r)) REps
           | S l => RCat r (rep l h r)
           end
  end.

Fixpoint compile (p : pat) : re :=
  match p with
  | PEmpty => REps
  | PChar c => RSet [(c, c)]
  | PClass rs => RSet rs
  | PCat p q => RCat (compile p) (compile q)
  | PAlt p q => RAlt (compile p) (compile q)
  | PRep lo hi p => rep lo hi (compile p)
  end.

Fixpoint nullable (r : re) : bool :=
  match r with
  | RNil => false
  | REps => true
  | RSet _ => false
  | RCat a b => nullable a && nullable b
  | RAlt a b => nullable a || nullable b
  end.

Definition alt (a b : re) : re :=
  match a, b with
  | RNil, _ => b
  | _, RNil => a
  | _, _ => RAlt a b
  end.

Definition cat (a b : re) : re :=
  match a with
  | RNil => RNil
  | REps => b
  | _ => RCat a b
  end.

Fixpoint deriv (ci : bool) (c : cunit) (r : re) : re :=
  match r with
  | RNil | REps => RNil
  | RSet rs => if class_test ci rs c then REps else RNil
  | RCat a b =>
      if nullable a then alt (cat (deriv ci c a) b) (deriv ci c b)
      else cat (deriv ci c a) b
  | RAlt a b => alt (deriv ci c a) (deriv ci c b)
  end.

Fixpoint matches (ci : bool) (r : re) (s : jsstring) : bool :=
  match s with
  | [] => nullable r
  | c :: s' => matches ci (deriv ci c r) s'
  end.

(** [pattern.test(s)] for an anchored pattern [/^p$/] (flag [i] when [ci]). *)
Definition regex_test (ci : bool) (p : pat) (s : jsstring) : bool :=
  matches ci (compile p) s.

(* ------------------------------------------------------------------ *)
(** ** The patterns of the sources *)

(** is-bcrypt.util.ts:
    [/^[$]2[abxy]?[$](?:0[4-9]|[12][0-9]|3[01])[$][./0-9a-zA-Z]{53}$/] *)
Definition bcryptHashPattern : pat :=
  pseq [ PClass [one "$"]; PChar (ch "2");
         PRep 0 1 (PClass [one "a"; one "b"; one "x"; one "y"]);
         PClass [one "$"];
         PAlt (PCat (PChar (ch "0")) (PClass [rng "4" "9"]))
              (PAlt (PCat (PClass [one "1"; one "2"]) (PClass [rng "0" "9"]))
                    (PCat (PChar (ch "3")) (PClass [one "0"; one "1"])));
         PClass [one "$"];
         PRep 53 53 (PClass [one "."; one "/"; rng "0" "9"; rng "a" "z"; rng "A" "Z"]) ].

Definition b64_class : ranges := [rng "A" "Z"; rng "a" "z"; rng "0" "9"; one "+"; one "/"].
Definition digit_class : ranges := [rng "0" "9"].

(** part_004 (isArgon2), flag [i]:
    [/^\$argon2id\$v=(?:16|19)\$m=\d{1,10},t=\d{1,10},p=\d{1,3}(?:,keyid=[A-Za-z0-9+/]{0,11}(?:,data=[A-Za-z0-9+/]{0,43})?)?\$[A-Za-z0-9+/]{11,64}\$[A-Za-z0-9+/]{16,86}$/i] *)
Definition argon2HashPattern : pat :=
  pseq [ plit "$argon2id$v=";
         PAlt (plit "16") (plit "19");
         plit "$m="; PRep 1 10 (PClass digit_class);
         plit ",t="; PRep 1 10 (PClass digit_class);
         plit ",p="; PRep 1 3 (PClass digit_class);
         PRep 0 1 (PCat (plit ",keyid=")
                     (PCat (PRep 0 11 (PClass b64_class))
                           (PRep 0 1 (PCat (plit ",data=") (PRep 0 43 (PClass b64_class))))));
         plit "$"; PRep 11 64 (PClass b64_class);
         plit "$"; PRep 16 86 (PClass b64_class) ].

(** is-md5.util.ts: [/^[a-fA-F0-9]{32}$/] *)
Definition md5HashPattern : pat :=
  PRep 32 32 (PClass [rng "a" "f"; rng "A" "F"; rng "0" "9"]).
(** is-sha.util.ts: [/^[A-Fa-f0-9]{40}$/] and [/^[A-Fa-f0-9]{64}$/] *)
Definition sha1HashPattern : pat :=
  PRep 40 40 (PClass [rng "A" "F"; rng "a" "f"; rng "0" "9"]).
Definition sha256HashPattern : pat :=
  PRep 64 64 (PClass [rng "A" "F"; rng "a" "f"; rng "0" "9"]).

(* ------------------------------------------------------------------ *)
(** ** JavaScript values, errors and [toString] *)

Inductive js_error :=
| TypeError
| Error (msg : string).

(** A completion: a returned value or a thrown exception. *)
Inductive outcome (A : Type) :=
| Ok (a : A)
| Throw (e : js_error).
Arguments Ok {A} a.
Arguments Throw {A} e.

Definition obind {A B} (m : outcome A) (k : A -> outcome B) : outcome B :=
  match m with Ok a => k a | Throw e => Throw e end.
Notation "'let*' x := m 'in' k" := (obind m (fun x => k))
  (at level 200, x name, m at level 100, right associativity).

(** The JavaScript values the code can receive; numbers are integral here,
    objects are plain objects, functions are named native functions. *)
Inductive jsval :=
| JUndefined
| JNull
| JBool (b : bool)
| JNum (z : Z)
| JStr (s : jsstring)
| JBuf (bytes : list N)
| JObj
| JFun (name : string).

(** The UTF-8 decoding [Buffer.prototype.toString()] performs (the string
    length limit it also enforces is in [js_toString]). *)
Class BufferLib := { buffer_toString : list N -> jsstring }.

Fixpoint uint_js (d : Decimal.uint) : jsstring :=
  match d with
  | Decimal.Nil => []
  | Decimal.D0 d => 48%N :: uint_js d
  | Decimal.D1 d => 49%N :: uint_js d
  | Decimal.D2 d => 50%N :: uint_js d
  | Decimal.D3 d => 51%N :: uint_js d
  | Decimal.D4 d => 52%N :: uint_js d
  | Decimal.D5 d => 53%N :: uint_js d
  | Decimal.D6 d => 54%N :: uint_js d
  | Decimal.D7 d => 55%N :: uint_js d
  | Decimal.D8 d => 56%N :: uint_js d
  | Decimal.D9 d => 57%N :: uint_js d
  end.

(** [Number.prototype.toString()] on an integral number. *)
Definition number_toString (z : Z) : jsstring :=
  match z with
  | Z0 => js "0"
  | Zpos p => uint_js (Pos.to_uint p)
  | Zneg p => js "-" ++ uint_js (Pos.to_uint p)
  end.

(** V8's [String::kMaxLength] on 64-bit platforms (2^29 - 24): the
    [Buffer] methods of Node refuse to create a longer string. *)
Definition kMaxLength : N := 536870888.

(** The error Node throws then (code [ERR_STRING_TOO_LONG]). *)
Definition ERR_STRING_TOO_LONG : js_error :=
  Error "Cannot create a string longer than 0x1fffffe8 characters".

Definition exceeds_kMaxLength (n : nat) : bool := (kMaxLength <? N.of_nat n)%N.

(** [data.toString()]: a property read on [null] or [undefined] throws a
    [TypeError]; [buf.toString()] is [buf.utf8Slice(0, buf.length)], whose
    string V8 refuses when the buffer has more than [kMaxLength] bytes. *)
Definition js_toString `{BufferLib} (v : jsval) : outcome jsstring :=
  match v with
  | JUndefined | JNull => Throw TypeError
  | JBool b => Ok (js (if b then "true" else "false"))
  | JNum z => Ok (number_toString z)
  | JStr s => Ok s
  | JBuf bytes =>
      if exceeds_kMaxLength (List.length bytes) then Throw ERR_STRING_TOO_LONG
      else Ok (buffer_toString bytes)
  | JObj => Ok (js "[object Object]")
  | JFun name => Ok (js ("function " ++ name ++ "() { [native code] }"))
  end.

(* ------------------------------------------------------------------ *)
(** ** The classifiers *)

(** [isBcrypt(data)]: [bcryptHashPattern.test(data.toString())]. *)
Definition isBcrypt `{BufferLib} (data : jsval) : outcome bool :=
  let* s := js_toString data in Ok (regex_test false bcryptHashPattern s).

(** [isArgon2(data)], pattern with flag [i]. *)
Definition isArgon2 `{BufferLib} (data : jsval) : outcome bool :=
  let* s := js_toString data in Ok (regex_test true argon2HashPattern s).

Definition isMD5 `{BufferLib} (data : jsval) : outcome bool :=
  let* s := js_toString data in Ok (regex_test false md5HashPattern s).

Definition isSHA1 `{BufferLib} (data : jsval) : outcome bool :=
  let* s := js_toString data in Ok (regex_test false sha1HashPattern s).

Definition isSHA256 `{BufferLib} (data : jsval) : outcome bool :=
  let* s := js_toString data in Ok (regex_test false sha256HashPattern s).

(** The results of the five classifiers on one value. *)
Definition classifier_results `{BufferLib} (v : jsval) : list (outcome bool) :=
  [isBcrypt v; isArgon2 v; isMD5 v; isSHA1 v; isSHA256 v].

Definition accepts (o : outcome bool) : bool :=
  match o with Ok true => true | _ => false end.

(* ------------------------------------------------------------------ *)
(** ** The formats as the spec's table (section 6) writes them *)

(** [^\$2[abxy]?\$(0[4-9]|[12][0-9]|3[01])\$[./0-9A-Za-z]{53}$] *)
Definition spec_bcrypt : pat :=
  pseq [ PChar (ch "$"); PChar (ch "2");
         PRep 0 1 (PClass [one "a"; one "b"; one "x"; one "y"]);
         PChar (ch "$");
         PAlt (PCat (PChar (ch "0")) (PClass [rng "4" "9"]))
              (PAlt (PCat (PClass [one "1"; one "2"]) (PClass [rng "0" "9"]))
                    (PCat (PChar (ch "3")) (PClass [one "0"; one "1"])));
         PChar (ch "$");
         PRep 53 53 (PClass [one "."; one "/"; rng "0" "9"; rng "A" "Z"; rng "a" "z"]) ].

(** [^\$argon2id\$v=(16|19)\$m=\d{1,10},t=\d{1,10},p=\d{1,3}(,keyid=[A-Za-z0-9+/]{0,11}(,data=[A-Za-z0-9+/]{0,43})?)?\$[A-Za-z0-9+/]{11,64}\$[A-Za-z0-9+/]{16,86}$],
    matched case-insensitively. *)
Definition spec_argon2 : pat :=
  let b64 := PClass [rng "A" "Z"; rng "a" "z"; rng "0" "9"; one "+"; one "/"] in
  let d := PClass [rng "0" "9"] in
  pseq [ plit "$argon2id$v="; PAlt (plit "16") (plit "19");
         plit "$m="; PRep 1 10 d; plit ",t="; PRep 1 10 d; plit ",p="; PRep 1 3 d;
         PRep 0 1 (pseq [plit ",keyid="; PRep 0 11 b64;
                         PRep 0 1 (pseq [plit ",data="; PRep 0 43 b64])]);
         plit "$"; PRep 11 64 b64; plit "$"; PRep 16 86 b64 ].

(** A hexadecimal digit: [0-9], [a-f] or [A-F]. *)
Definition is_hex_char (c : cunit) : Prop :=
  (48 <= c <= 57)%N \/ (97 <= c <= 102)%N \/ (65 <= c <= 70)%N.

(** Exactly [n] hexadecimal characters. *)
Definition hex_string (n : nat) (s : jsstring) : Prop :=
  List.length s = n /\ Forall is_hex_char s.

(** Two patterns of the same shape whose classes hold the same characters. *)
Inductive psim : pat -> pat -> Prop :=
| ps_empty : psim PEmpty PEmpty
| ps_char c : psim (PChar c) (PChar c)
| ps_class rs1 rs2 :
    (forall c, in_ranges rs1 c = in_ranges rs2 c) -> psim (PClass rs1) (PClass rs2)
| ps_class_char rs c :
    (forall m, in_ranges rs m = true <-> m = c) -> psim (PClass rs) (PChar c)
| ps_cat p1 p2 q1 q2 : psim p1 p2 -> psim q1 q2 -> psim (PCat p1 q1) (PCat p2 q2)
| ps_alt p1 p2 q1 q2 : psim p1 p2 -> psim q1 q2 -> psim (PAlt p1 q1) (PAlt p2 q2)
| ps_rep lo hi p1 p2 : psim p1 p2 -> psim (PRep lo hi p1) (PRep lo hi p2)
| ps_cat_empty p q : psim p q -> psim p (PCat q PEmpty).

(** [o] is [Ok true] exactly when [P] holds and [Ok false] otherwise. *)
Definition decides (o : outcome bool) (P : Prop) : Prop :=
  (o = Ok true <-> P) /\ (o = Ok false <-> ~ P).

(* ------------------------------------------------------------------ *)
(** ** The [IsHashed] validator (is-hashed-validator.decorator.ts) *)

(** The own properties of [Object.prototype], reached by a property read on
    a plain object literal when the object has no own property of that name;
    all are functions except the [__proto__] accessor, which yields
    [Object.prototype] itself. *)
Definition object_prototype_methods : list string :=
  ["constructor"%string; "__defineGetter__"%string; "__defineSetter__"%string; "hasOwnProperty"%string;
   "__lookupGetter__"%string; "__lookupSetter__"%string; "isPrototypeOf"%string;
   "propertyIsEnumerable"%string; "toString"%string; "valueOf"%string; "toLocaleString"%string].

Definition object_prototype_get (k : string) : jsval :=
  if existsb (String.eqb k) object_prototype_methods then JFun k
  else if String.eqb k "__proto__"%string then JObj
  else JUndefined.

Fixpoint own_get (props : list (string * jsval)) (k : string) : option jsval :=
  match props with
  | [] => None
  | (k', v) :: rest => if String.eqb k k' then Some v else own_get rest k
  end.

(** [obj[k]] on an object literal with properties [props]. *)
Definition literal_get (props : list (string * jsval)) (k : string) : jsval :=
  match own_get props k with
  | Some v => v
  | None => object_prototype_get k
  end.

(** [mapValidationByHashType(type, value)]: the object literal is built
    (every predicate is evaluated) and indexed by [type]. *)
Definition mapValidationByHashType `{BufferLib} (type : string) (value : jsstring)
  : outcome jsval :=
  let* b_bcrypt := isBcrypt (JStr value) in
  let* b_argon2 := isArgon2 (JStr value) in
  let* b_md5 := isMD5 (JStr value) in
  let* b_sha1 := isSHA1 (JStr value) in
  let* b_sha256 := isSHA256 (JStr value) in
  Ok (literal_get
        [("bcrypt"%string, JBool b_bcrypt); ("argon2"%string, JBool b_argon2);
         ("md5"%string, JBool b_md5); ("sha1"%string, JBool b_sha1);
         ("sha256"%string, JBool b_sha256); ("default"%string, JBool false)] type).

(** [validate(value)] of the decorator configured with option [type]
    ([None] when the option is absent); [!type] also holds for the empty string. *)
Definition validate `{BufferLib} (type : option string) (value : jsval) : outcome jsval :=
  match value with
  | JStr s =>
      let default_check :=
        let* a := isBcrypt value in
        if a then Ok (JBool true) else let* b := isArgon2 value in Ok (JBool b) in
      match type with
      | None => default_check
      | Some t => if String.eqb t EmptyString then default_check else mapValidationByHashType t s
      end
  | _ => Ok (JBool false)
  end.

(** A boolean completion as a JavaScript value. *)
Definition as_jsbool (o : outcome bool) : outcome jsval := let* b := o in Ok (JBool b).

(** The five type names of [HashValueType]. *)
Definition hash_value_types : list string :=
  ["argon2"%string; "bcrypt"%string; "sha1"%string; "sha256"%string; "md5"%string].

(** A decoder that agrees with UTF-8 on ASCII bytes and replaces every other
    byte by U+FFFD; a concrete [Buffer] for evaluating examples. *)
#[export] Instance ascii_buffer : BufferLib :=
  { buffer_toString := map (fun b => if (b <? 128)%N then b else 65533%N) }.

(* ------------------------------------------------------------------ *)
(** ** The strategy holder [HashBin] (bcrypt.service.ts, lines 133-147) *)

(** References to objects; the heap records the class each object was
    created from and the next free reference. *)
Definition loc := nat.

Inductive strategy_class :=
| BcryptServiceClass
| Argon2ServiceClass
| Pbkdf2StrategyClass
| UserStrategyClass (name : string).

Record heap := { objects : list (loc * strategy_class); next_loc : loc }.

(** Every allocated reference is below [next_loc]. *)
Definition heap_wf (h : heap) : Prop :=
  forall l, In l (map fst (objects h)) -> l < next_loc h.

(** What a constructor body does when [new] runs it on the fresh object
    [this]: it completes, possibly returning an object of its own (which
    then replaces [this] as the value of [new]), or it throws. *)
Definition ctor_body := loc -> heap -> outcome (option loc * heap).

(** The constructors of the classes given to [setInstance]: those of
    [BcryptService], [Argon2Service] and [Pbkdf2Strategy] only assign
    fields of [this] and return nothing; a user class has any body. *)
Class StrategyClasses := { user_ctor : string -> ctor_body }.

Definition class_ctor `{StrategyClasses} (c : strategy_class) : ctor_body :=
  match c with
  | UserStrategyClass name => user_ctor name
  | BcryptServiceClass | Argon2ServiceClass | Pbkdf2StrategyClass => fun _ h => Ok (None, h)
  end.

(** The allocation of [this] by [new C()]: a fresh reference, recorded with
    its class. *)
Definition alloc (c : strategy_class) (h : heap) : heap :=
  {| objects := (next_loc h, c) :: objects h; next_loc := S (next_loc h) |}.

(** [new C()]: allocate [this] and run the constructor body on it; an
    object the body returns is the value, otherwise [this] is. *)
Definition js_new `{StrategyClasses} (c : strategy_class) (h : heap) : outcome (loc * heap) :=
  match class_ctor c (next_loc h) (alloc c h) with
  | Ok (Some l, h') => Ok (l, h')
  | Ok (None, h') => Ok (next_loc h, h')
  | Throw e => Throw e
  end.

(** The argument of [setInstance]: an instance or a zero-argument
    constructor ([typeof strategy === 'function']). *)
Inductive strategy_arg :=
| StrategyInstance (l : loc)
| StrategyConstructor (c : strategy_class).

(** The field [strategyInstance]; [None] while it is [undefined]. *)
Record HashBin := { strategyInstance : option loc }.

Definition HashBin_new : HashBin := {| strategyInstance := None |}.

(** [setInstance(strategy)]: when [new strategy()] throws, the exception
    leaves [setInstance] before the field is assigned. *)
Definition setInstance `{StrategyClasses} (hb : HashBin) (h : heap) (strategy : strategy_arg)
  : outcome (HashBin * heap) :=
  match strategy with
  | StrategyConstructor c =>
      match js_new c h with
      | Ok (l, h') => Ok ({| strategyInstance := Some l |}, h')
      | Throw e => Throw e
      end
  | StrategyInstance l => Ok ({| strategyInstance := Some l |}, h)
  end.

(** [getInstance()] returns the field as it is ([Ok None] is [undefined]). *)
Definition getInstance (hb : HashBin) : outcome (option loc) := Ok (strategyInstance hb).

(* ------------------------------------------------------------------ *)
(** ** Optional arguments and options objects *)

(** An optional parameter: absent ([undefined]), [null], or a value. *)
Inductive jsarg (A : Type) :=
| ArgUndefined
| ArgNull
| ArgValue (a : A).
Arguments ArgUndefined {A}. Arguments ArgNull {A}. Arguments ArgValue {A} a.

(** [a ?? b] on an optional field ([None] is [undefined]). *)
Definition nullish {A} (a b : option A) : option A :=
  match a with Some x => Some x | None => b end.

(** [string | Buffer] *)
Inductive binary :=
| BStr (s : jsstring)
| BBuf (bytes : list N).

(* ------------------------------------------------------------------ *)
(** ** BcryptService (bcrypt.service.ts) *)

Record BcryptOptions := { bc_salt : option jsstring; bc_rounds : option Z }.

(** [bcrypt.hash(data, salt)]: deterministic in the data and the salt. *)
Class BcryptLib := { bcrypt_hash : binary -> jsstring -> outcome jsstring }.

Definition str_truthy (v : option jsstring) : bool :=
  match v with Some (_ :: _) => true | _ => false end.
Definition num_truthy (v : option Z) : bool :=
  match v with Some z => negb (Z.eqb z 0) | None => false end.

(** [getSalt(options)]; [genSaltSync] stands for the random salt the library
    generates on this call, for the given rounds ([None]: its default). *)
Definition getSalt (genSaltSync : option Z -> jsstring) (options : option BcryptOptions)
  : jsstring :=
  let salt := match options with Some o => bc_salt o | None => None end in
  let rounds := match options with Some o => bc_rounds o | None => None end in
  match salt with
  | Some s => if str_truthy salt then s
              else if negb (str_truthy salt) && num_truthy rounds
                   then genSaltSync rounds else genSaltSync None
  | None => if negb (str_truthy salt) && num_truthy rounds
            then genSaltSync rounds else genSaltSync None
  end.

Definition BcryptService_hash `{BcryptLib} (genSaltSync : option Z -> jsstring)
  (data : binary) (options : option BcryptOptions) : outcome jsstring :=
  bcrypt_hash data (getSalt genSaltSync options).

(* ------------------------------------------------------------------ *)
(** ** Argon2Service (argon2.service.ts) *)

Record Argon2Options := {
  memoryCost : option Z; timeCost : option Z; parallelism : option Z; hashLength : option Z }.

Definition argon2_empty : Argon2Options :=
  {| memoryCost := None; timeCost := None; parallelism := None; hashLength := None |}.

(** The argon2 package: its default options, and the hash computed with the
    options in effect. *)
Class Argon2Lib := {
  argon2_defaults : Argon2Options;
  argon2_raw : binary -> Argon2Options -> outcome jsstring }.

(** [argon2.hash(data, options?)] merges the given options over its defaults. *)
Definition argon2_effective `{Argon2Lib} (options : option Argon2Options) : Argon2Options :=
  match options with
  | None => argon2_defaults
  | Some o =>
      {| memoryCost := nullish (memoryCost o) (memoryCost argon2_defaults);
         timeCost := nullish (timeCost o) (timeCost argon2_defaults);
         parallelism := nullish (parallelism o) (parallelism argon2_defaults);
         hashLength := nullish (hashLength o) (hashLength argon2_defaults) |}
  end.

Definition argon2_hash `{Argon2Lib} (data : binary) (options : option Argon2Options) :=
  argon2_raw data (argon2_effective options).

(** An [Argon2Service] holds its constructor's [options?]. *)
Record Argon2Service := { a2_options : option Argon2Options }.

(** The options [Argon2Service.hash(data, options = {})] hands to
    [argon2.hash]: [Some o] for [argon2.hash(data, o)], [None] for
    [argon2.hash(data)]. *)
Definition Argon2Service_hash_options (svc : Argon2Service) (arg : jsarg Argon2Options)
  : option Argon2Options :=
  let options := match arg with ArgUndefined => ArgValue argon2_empty | a => a end in
  match options with
  | ArgValue o => Some o
  | _ => match a2_options svc with Some o => Some o | None => None end
  end.

Definition Argon2Service_hash `{Argon2Lib} (svc : Argon2Service) (data : binary)
  (arg : jsarg Argon2Options) : outcome jsstring :=
  argon2_hash data (Argon2Service_hash_options svc arg).

(* ------------------------------------------------------------------ *)
(** ** Node's string-to-bytes conversion *)

(** UTF-8 bytes of a code point. *)
Definition utf8_of_code_point (cp : N) : list N :=
  if (cp <? 128)%N then [cp]
  else if (cp <? 2048)%N then [192 + cp / 64; 128 + cp mod 64]%N
  else if (cp <? 65536)%N then [224 + cp / 4096; 128 + (cp / 64) mod 64; 128 + cp mod 64]%N
  else [240 + cp / 262144; 128 + (cp / 4096) mod 64; 128 + (cp / 64) mod 64;
        128 + cp mod 64]%N.

Definition is_high_surrogate (c : cunit) : bool := ((55296 <=? c) && (c <=? 56319))%N.
Definition is_low_surrogate (c : cunit) : bool := ((56320 <=? c) && (c <=? 57343))%N.

(** [Buffer.from(s, 'utf8')]: a surrogate pair is encoded as one code
    point, a lone surrogate as U+FFFD (65533). *)
Fixpoint utf8_encode (s : jsstring) : list N :=
  match s with
  | [] => []
  | c :: rest =>
      if is_high_surrogate c then
        match rest with
        | d :: rest' =>
            if is_low_surrogate d
            then utf8_of_code_point (65536 + (c - 55296) * 1024 + (d - 56320))%N
                 ++ utf8_encode rest'
            else utf8_of_code_point 65533 ++ utf8_encode rest
        | [] => utf8_of_code_point 65533
        end
      else if is_low_surrogate c then utf8_of_code_point 65533 ++ utf8_encode rest
      else utf8_of_code_point c ++ utf8_encode rest
  end.

(** The bytes crypto reads from a [string | Buffer] argument. *)
Definition binary_bytes (b : binary) : list N :=
  match b with BStr s => utf8_encode s | BBuf bytes => bytes end.

(* ------------------------------------------------------------------ *)
(** ** Pbkdf2Strategy (pbkdf2.service.ts) *)

Record Pbkdf2Options := {
  pb_salt : option binary; pb_iterations : option Z;
  pb_keylen : option Z; pb_digest : option string }.

Definition pb_empty : Pbkdf2Options :=
  {| pb_salt := None; pb_iterations := None; pb_keylen := None; pb_digest := None |}.

(** The options object [{ salt: s }]. *)
Definition salt_only (s : binary) : Pbkdf2Options :=
  {| pb_salt := Some s; pb_iterations := None; pb_keylen := None; pb_digest := None |}.

(** Node's crypto: the PBKDF2 computation on bytes, and base64 encoding. *)
Class CryptoLib := {
  pbkdf2_core : list N -> list N -> Z -> Z -> string -> outcome (list N);
  base64_encode : list N -> jsstring }.

(** [buf.toString('base64')]: the base64 text, refused by V8 when it is
    longer than [kMaxLength]. *)
Definition buffer_toString_base64 `{CryptoLib} (bytes : list N) : outcome jsstring :=
  let s := base64_encode bytes in
  if exceeds_kMaxLength (List.length s) then Throw ERR_STRING_TOO_LONG else Ok s.

(** [crypto.pbkdf2(password, salt, iterations, keylen, digest, cb)]: the
    arguments are checked (an [undefined] one is rejected) and strings are
    read as their UTF-8 bytes. *)
Definition crypto_pbkdf2 `{CryptoLib} (password : binary) (salt : option binary)
  (iterations keylen : option Z) (digest : option string) : outcome (list N) :=
  match salt, iterations, keylen, digest with
  | Some s, Some i, Some k, Some d => pbkdf2_core (binary_bytes password) (binary_bytes s) i k d
  | _, _, _, _ => Throw TypeError
  end.

(** A [Pbkdf2Strategy] holds [this.options] as set by its constructor. *)
Record Pbkdf2Strategy := { pb_options : Pbkdf2Options }.

(** The options the constructor installs when it is given none. *)
Definition pbkdf2_defaults (randomBytes16 : list N) : Pbkdf2Options :=
  {| pb_salt := Some (BBuf randomBytes16); pb_iterations := Some 1000%Z;
     pb_keylen := Some 64%Z; pb_digest := Some "sha256"%string |}.

(** [new Pbkdf2Strategy(options?)]; [randomBytes16] is the result of
    [crypto.randomBytes(16)] on this call. *)
Definition Pbkdf2Strategy_new (randomBytes16 : list N) (options : option Pbkdf2Options)
  : Pbkdf2Strategy :=
  match options with
  | Some o => {| pb_options := o |}
  | None => {| pb_options := pbkdf2_defaults randomBytes16 |}
  end.

(** An options object that sets salt, iterations, keylen and digest. *)
Definition pb_complete (o : Pbkdf2Options) : Prop :=
  pb_salt o <> None /\ pb_iterations o <> None /\ pb_keylen o <> None /\ pb_digest o <> None.

Definition getFinalOptions (st : Pbkdf2Strategy) (options : Pbkdf2Options) : Pbkdf2Options :=
  {| pb_salt := nullish (pb_salt options) (pb_salt (pb_options st));
     pb_iterations := nullish (pb_iterations options) (pb_iterations (pb_options st));
     pb_keylen := nullish (pb_keylen options) (pb_keylen (pb_options st));
     pb_digest := nullish (pb_digest options) (pb_digest (pb_options st)) |}.

(** The options [hash(data, options = {})] passes to [crypto.pbkdf2];
    [getFinalOptions(null)] throws when reading [null.salt]. *)
Definition Pbkdf2_hash_options (st : Pbkdf2Strategy) (arg : jsarg Pbkdf2Options)
  : outcome Pbkdf2Options :=
  match arg with
  | ArgUndefined => Ok (getFinalOptions st pb_empty)
  | ArgNull => Throw TypeError
  | ArgValue o => Ok (getFinalOptions st o)
  end.

Definition Pbkdf2_hash `{CryptoLib} (st : Pbkdf2Strategy) (data : binary)
  (arg : jsarg Pbkdf2Options) : outcome jsstring :=
  let* f := Pbkdf2_hash_options st arg in
  let* derived := crypto_pbkdf2 data (pb_salt f) (pb_iterations f) (pb_keylen f) (pb_digest f) in
  buffer_toString_base64 derived.

Definition jsstring_eqb (a b : jsstring) : bool :=
  if list_eq_dec N.eq_dec a b then true else false.

(** [hashed.toString('base64')]: a string ignores the argument. *)
Definition binary_toString_base64 `{CryptoLib} (b : binary) : outcome jsstring :=
  match b with BStr s => Ok s | BBuf bytes => buffer_toString_base64 bytes end.

(** [compare(data, hashed, options = this.options || {})]. *)
Definition Pbkdf2_compare `{CryptoLib} (st : Pbkdf2Strategy) (data hashed : binary)
  (arg : jsarg Pbkdf2Options) : outcome bool :=
  let* options := match arg with
                  | ArgUndefined => Ok (pb_options st)
                  | ArgNull => Throw TypeError
                  | ArgValue o => Ok o
                  end in
  let f := getFinalOptions st options in
  let* hashedData := Pbkdf2_hash st data (ArgValue f) in
  let* expected := binary_toString_base64 hashed in
  Ok (jsstring_eqb hashedData expected).

(* ------------------------------------------------------------------ *)
(** ** RsaService (part_002) *)

Record KeyEncoding := { ke_type : string; ke_format : string }.

Record RsaPemOptions := {
  modulusLength : option Z;
  publicKeyEncoding : option KeyEncoding;
  privateKeyEncoding : option KeyEncoding }.

Record RsaService := { rsa_options : option RsaPemOptions }.

(** [crypto.generateKeyPairSync('rsa', options)]. *)
Class RsaLib := { generateKeyPairSync_rsa : RsaPemOptions -> outcome (jsstring * jsstring) }.

Definition spki_pem : KeyEncoding := {| ke_type := "spki"; ke_format := "pem" |}.
Definition pkcs8_pem : KeyEncoding := {| ke_type := "pkcs8"; ke_format := "pem" |}.

(** [a || b] on optional objects (an object is truthy). *)
Definition or_else {A} (a : option A) (b : A) : A :=
  match a with Some x => x | None => b end.

(** [getFinalOptions(options)]; reading [options.publicKeyEncoding] throws
    when [options] is [undefined]. *)
Definition RsaService_getFinalOptions (svc : RsaService) (options : option RsaPemOptions)
  : outcome RsaPemOptions :=
  match options with
  | None => Throw TypeError
  | Some o =>
      let this_pub := match rsa_options svc with Some t => publicKeyEncoding t | None => None end in
      let this_priv := match rsa_options svc with Some t => privateKeyEncoding t | None => None end in
      Ok {| modulusLength := Some 2048%Z;
            publicKeyEncoding := Some (or_else (nullish (publicKeyEncoding o) this_pub) spki_pem);
            privateKeyEncoding := Some (or_else (nullish (privateKeyEncoding o) this_priv) pkcs8_pem) |}
  end.

Definition RsaService_generateKeyPair `{RsaLib} (svc : RsaService) (options : option RsaPemOptions)
  : outcome (jsstring * jsstring) :=
  let* f := RsaService_getFinalOptions svc options in
  generateKeyPairSync_rsa f.

(* ------------------------------------------------------------------ *)
(** ** Lengths of the strings a pattern matches *)

Fixpoint minlen (p : pat) : nat :=
  match p with
  | PEmpty => 0
  | PChar _ | PClass _ => 1
  | PCat p q => minlen p + minlen q
  | PAlt p q => Nat.min (minlen p) (minlen q)
  | PRep lo _ p => lo * minlen p
  end.

Fixpoint maxlen (p : pat) : nat :=
  match p with
  | PEmpty => 0
  | PChar _ | PClass _ => 1
  | PCat p q => maxlen p + maxlen q
  | PAlt p q => Nat.max (maxlen p) (maxlen q)
  | PRep _ hi p => hi * maxlen p
  end.

(* ------------------------------------------------------------------ *)
(** ** Argon2Service.compare (argon2.service.ts, lines 67-75) *)

(** [argon2.verify(encrypted, data, options?)]. *)
Class Argon2VerifyLib := {
  argon2_verify : jsstring -> binary -> option Argon2Options -> outcome bool }.

(** The options [compare(data, encrypted, options = {})] hands to
    [argon2.verify]: [Some o] for [verify(encrypted, data, o)], [None] for
    [verify(encrypted, data)]. *)
Definition Argon2Service_compare_options (svc : Argon2Service) (arg : jsarg Argon2Options)
  : option Argon2Options :=
  let options := match arg with ArgUndefined => ArgValue argon2_empty | a => a end in
  match options with
  | ArgValue o => Some o
  | _ => match a2_options svc with Some o => Some o | None => None end
  end.

Definition Argon2Service_compare `{Argon2VerifyLib} (svc : Argon2Service) (data : binary)
  (encrypted : jsstring) (arg : jsarg Argon2Options) : outcome bool :=
  argon2_verify encrypted data (Argon2Service_compare_options svc arg).

(* ------------------------------------------------------------------ *)
(** ** Node's base64 codec (Buffer [toString('base64')], [Buffer.from(s, 'base64')]) *)

(** The character of a 6-bit value. *)
Definition base64_char (v : N) : cunit :=
  if (v <? 26)%N then (65 + v)%N
  else if (v <? 52)%N then (97 + (v - 26))%N
  else if (v <? 62)%N then (48 + (v - 52))%N
  else if (v =? 62)%N then 43%N else 47%N.

(** Encoding with the standard alphabet and [=] padding. *)
Fixpoint base64_encode_node (b : list N) : jsstring :=
  match b with
  | b0 :: b1 :: b2 :: rest =>
      base64_char (N.shiftr b0 2)
      :: base64_char (N.lor (N.shiftl (N.land b0 3) 4) (N.shiftr b1 4))
      :: base64_char (N.lor (N.shiftl (N.land b1 15) 2) (N.shiftr b2 6))
      :: base64_char (N.land b2 63) :: base64_encode_node rest
  | [b0; b1] =>
      [base64_char (N.shiftr b0 2);
       base64_char (N.lor (N.shiftl (N.land b0 3) 4) (N.shiftr b1 4));
       base64_char (N.shiftl (N.land b1 15) 2); 61%N]
  | [b0] =>
      [base64_char (N.shiftr b0 2); base64_char (N.shiftl (N.land b0 3) 4); 61%N; 61%N]
  | [] => []
  end.

(** The decoder's table [unbase64]: both the standard and the URL-safe
    alphabet are accepted. *)
Definition unbase64 (c : cunit) : option N :=
  if ((65 <=? c) && (c <=? 90))%N then Some (c - 65)%N
  else if ((97 <=? c) && (c <=? 122))%N then Some (c - 71)%N
  else if ((48 <=? c) && (c <=? 57))%N then Some (c + 4)%N
  else if ((c =? 43) || (c =? 45))%N then Some 62%N
  else if ((c =? 47) || (c =? 95))%N then Some 63%N
  else None.

(** The 6-bit values the decoder reads: characters outside the tables are
    skipped and the first [=] ends the input. *)
Fixpoint base64_values (s : jsstring) : list N :=
  match s with
  | [] => []
  | c :: rest =>
      match unbase64 c with
      | Some v => v :: base64_values rest
      | None => if (c =? 61)%N then [] else base64_values rest
      end
  end.

(** Four values give three bytes; a final group of three, two or one
    values gives two, one or no byte. *)
Fixpoint base64_join (v : list N) : list N :=
  match v with
  | a :: b :: c :: d :: rest =>
      N.lor (N.shiftl (N.land a 63) 2) (N.shiftr (N.land b 48) 4)
      :: N.lor (N.shiftl (N.land b 15) 4) (N.shiftr (N.land c 60) 2)
      :: N.lor (N.shiftl (N.land c 3) 6) (N.land d 63) :: base64_join rest
  | [a; b; c] =>
      [N.lor (N.shiftl (N.land a 63) 2) (N.shiftr (N.land b 48) 4);
       N.lor (N.shiftl (N.land b 15) 4) (N.shiftr (N.land c 60) 2)]
  | [a; b] => [N.lor (N.shiftl (N.land a 63) 2) (N.shiftr (N.land b 48) 4)]
  | _ => []
  end.

(** [Buffer.from(s, 'base64')] (the native decoder also bounds its output
    by a size computed from the length of [s], which base64 text never
    reaches; that bound is left out). *)
Definition base64_decode_node (s : jsstring) : list N := base64_join (base64_values s).

(* ------------------------------------------------------------------ *)
(** ** Node's UTF-8 decoding ([buffer.toString()], WHATWG UTF-8 decoder) *)

Record utf8_state := {
  u_cp : N; u_seen : N; u_needed : N; u_lower : N; u_upper : N }.

Definition utf8_init : utf8_state :=
  {| u_cp := 0; u_seen := 0; u_needed := 0; u_lower := 128; u_upper := 191 |}.

(** A byte read while no sequence is open: the code points it completes and
    the next state. *)
Definition utf8_lead (b : N) : list N * utf8_state :=
  if (b <=? 127)%N then ([b], utf8_init)
  else if ((194 <=? b) && (b <=? 223))%N then
    ([], {| u_cp := N.land b 31; u_seen := 0; u_needed := 1; u_lower := 128; u_upper := 191 |})
  else if ((224 <=? b) && (b <=? 239))%N then
    ([], {| u_cp := N.land b 15; u_seen := 0; u_needed := 2;
            u_lower := if (b =? 224)%N then 160 else 128;
            u_upper := if (b =? 237)%N then 159 else 191 |})
  else if ((240 <=? b) && (b <=? 244))%N then
    ([], {| u_cp := N.land b 7; u_seen := 0; u_needed := 3;
            u_lower := if (b =? 240)%N then 144 else 128;
            u_upper := if (b =? 244)%N then 143 else 191 |})
  else ([65533%N], utf8_init).

(** One byte; a byte that cannot continue the open sequence emits U+FFFD
    and is read again from the initial state. *)
Definition utf8_byte (st : utf8_state) (b : N) : list N * utf8_state :=
  if (u_needed st =? 0)%N then utf8_lead b
  else if negb ((u_lower st <=? b) && (b <=? u_upper st))%N then
    let (out, st') := utf8_lead b in (65533%N :: out, st')
  else
    let cp := N.lor (N.shiftl (u_cp st) 6) (N.land b 63) in
    let seen := (u_seen st + 1)%N in
    if (seen =? u_needed st)%N then ([cp], utf8_init)
    else ([], {| u_cp := cp; u_seen := seen; u_needed := u_needed st;
                 u_lower := 128; u_upper := 191 |}).

(** The code points of a byte sequence; a sequence cut by the end of the
    input gives one U+FFFD. *)
Fixpoint utf8_run (st : utf8_state) (bs : list N) : list N :=
  match bs with
  | [] => if (u_needed st =? 0)%N then [] else [65533%N]
  | b :: rest => let (out, st') := utf8_byte st b in out ++ utf8_run st' rest
  end.

(** The UTF-16 code units of a code point. *)
Definition utf16_of_code_point (cp : N) : jsstring :=
  if (cp <? 65536)%N then [cp]
  else [55296 + (cp - 65536) / 1024; 56320 + (cp - 65536) mod 1024]%N.

Definition utf8_decode (bs : list N) : jsstring :=
  flat_map utf16_of_code_point (utf8_run utf8_init bs).

(** [String.prototype.toWellFormed()]: every lone surrogate replaced by
    U+FFFD. *)
Fixpoint to_well_formed (s : jsstring) : jsstring :=
  match s with
  | [] => []
  | c :: rest =>
      if is_high_surrogate c then
        match rest with
        | d :: rest' =>
            if is_low_surrogate d then c :: d :: to_well_formed rest'
            else 65533%N :: to_well_formed rest
        | [] => [65533%N]
        end
      else if is_low_surrogate c then 65533%N :: to_well_formed rest
      else c :: to_well_formed rest
  end.

(** A string without lone surrogates. *)
Fixpoint well_formed_utf16 (s : jsstring) : bool :=
  match s with
  | [] => true
  | c :: rest =>
      if is_high_surrogate c then
        match rest with
        | d :: rest' => is_low_surrogate d && well_formed_utf16 rest'
        | [] => false
        end
      else negb (is_low_surrogate c) && well_formed_utf16 rest
  end.

(* ------------------------------------------------------------------ *)
(** ** RsaService.encrypt and decrypt (part_002, lines 55-102) *)

(** The key argument [{ key, padding, oaepHash }]. *)
Record RsaKeyObject := { rk_key : jsstring; rk_padding : N; rk_oaepHash : string }.

(** [crypto.constants.RSA_PKCS1_OAEP_PADDING] *)
Definition RSA_PKCS1_OAEP_PADDING : N := 4.

Definition rsa_oaep_key (k : jsstring) : RsaKeyObject :=
  {| rk_key := k; rk_padding := RSA_PKCS1_OAEP_PADDING; rk_oaepHash := "sha256" |}.

(** [crypto.publicEncrypt] and [crypto.privateDecrypt] on bytes. *)
Class RsaCipherLib := {
  publicEncrypt : RsaKeyObject -> list N -> outcome (list N);
  privateDecrypt : RsaKeyObject -> list N -> outcome (list N) }.

(** [encrypt(data, publicKey)]: whatever the [try] block throws is replaced
    by [new Error('Encryption failed')] (after logging it).  OpenSSL bounds
    RSA moduli at 16384 bits (OPENSSL_RSA_MAX_MODULUS_BITS), so the buffers
    [encrypt] and [decrypt] turn into strings have at most 2048 bytes and
    the [kMaxLength] check of [toString] cannot fire: it is left out. *)
Definition RsaService_encrypt `{RsaCipherLib} (data : binary) (publicKey : jsstring)
  : outcome jsstring :=
  match publicEncrypt (rsa_oaep_key publicKey) (binary_bytes data) with
  | Ok encrypted => Ok (base64_encode_node encrypted)
  | Throw _ => Throw (Error "Encryption failed")
  end.

(** [decrypt(encryptedData, privateKey)]; [decrypted.toString()] decodes
    UTF-8. *)
Definition RsaService_decrypt `{RsaCipherLib} (encryptedData privateKey : jsstring)
  : outcome jsstring :=
  match privateDecrypt (rsa_oaep_key privateKey) (base64_decode_node encryptedData) with
  | Ok decrypted => Ok (utf8_decode decrypted)
  | Throw _ => Throw (Error "Decryption failed")
  end.

(* ------------------------------------------------------------------ *)
(** ** Sample libraries for evaluating examples *)

(** User strategy classes: [Failing]'s constructor throws, [Singleton]'s
    returns the existing object 0, any other only initialises [this]. *)
Definition sample_strategy_classes : StrategyClasses :=
  {| user_ctor name :=
       if String.eqb name "Failing" then fun _ _ => Throw (Error "init failed")
       else if String.eqb name "Singleton" then fun _ h => Ok (Some 0, h)
       else fun _ h => Ok (None, h) |}.

(** Stand-ins that compute simple values, not the real algorithms; the
    PBKDF2 stand-in keeps every salt and password byte. *)
#[export] Instance sample_crypto : CryptoLib :=
  { pbkdf2_core pw salt _ _ _ := Ok (salt ++ pw); base64_encode b := b }.
#[export] Instance sample_bcrypt : BcryptLib := { bcrypt_hash _ salt := Ok salt }.
#[export] Instance sample_rsa : RsaLib := { generateKeyPairSync_rsa _ := Ok ([], []) }.
(** The argon2 package's default options. *)
#[export] Instance sample_argon2 : Argon2Lib :=
  { argon2_defaults := {| memoryCost := Some 65536%Z; timeCost := Some 3%Z;
                          parallelism := Some 4%Z; hashLength := Some 32%Z |};
    argon2_raw _ _ := Ok [] }.
#[export] Instance sample_argon2_verify : Argon2VerifyLib := { argon2_verify _ _ _ := Ok true }.
(** A cipher that keeps the bytes (defined on bytes only). *)
Definition identity_cipher : RsaCipherLib :=
  {| publicEncrypt _ m := if forallb (fun x => (x <? 256)%N) m then Ok m
                          else Throw (Error "invalid byte");
     privateDecrypt _ c := Ok c |}.
(** A PBKDF2 stand-in with Node's base64 encoding. *)
Definition node_base64_crypto : CryptoLib :=
  {| pbkdf2_core pw salt _ _ _ := Ok (map (fun x => x mod 256)%N (salt ++ pw));
     base64_encode := base64_encode_node |}.

(* ================================================================== *)
(** * Proofs *)

(** ** The matching engine decides the declarative semantics *)

Ltac leb_cases :=
  repeat match goal with
  | |- context [(?a <=? ?b)%N] => destruct (N.leb_spec a b)
  | H : context [(?a <=? ?b)%N] |- _ => destruct (N.leb_spec a b)
  end; simpl in *.

Lemma canon_eq_iff (m c : cunit) :
  canon m = canon c <->
  m = c \/ ((97 <= c <= 122)%N /\ m = (c - 32)%N) \/ ((65 <= c <= 90)%N /\ m = (c + 32)%N).
Proof. unfold canon, is_lower; leb_cases; lia. Qed.

Lemma is_lower_iff c : is_lower c = true <-> (97 <= c <= 122)%N.
Proof. unfold is_lower; leb_cases; split; intros; try lia; try discriminate; auto. Qed.

Lemma is_upper_iff c : is_upper c = true <-> (65 <= c <= 90)%N.
Proof. unfold is_upper; leb_cases; split; intros; try lia; try discriminate; auto. Qed.

Lemma class_test_sem ci rs c : class_test ci rs c = true <-> class_sem ci rs c.
Proof.
  unfold class_test, class_sem, ceq; destruct ci; simpl.
  - rewrite !orb_true_iff, !andb_true_iff, is_lower_iff, is_upper_iff.
    setoid_rewrite canon_eq_iff. split.
    + intros [H | [[Hl H] | [Hu H]]]; eexists; split; eauto.
    + intros (m & Hm & [-> | [[Hl ->] | [Hu ->]]]); auto.
  - rewrite orb_false_r. split.
    + intros H; exists c; auto.
    + intros (m & Hm & ->); auto.
Qed.

Lemma nullable_sem ci r : nullable r = true <-> lang ci r [].
Proof.
  induction r as [| | rs | a IHa b IHb | a IHa b IHb]; simpl.
  - split; [discriminate | tauto].
  - tauto.
  - split; [discriminate | intros (c & H & _); discriminate].
  - rewrite andb_true_iff, IHa, IHb. split.
    + intros [Ha Hb]; exists [], []; auto.
    + intros (s1 & s2 & E & Ha & Hb). symmetry in E.
      apply app_eq_nil in E as [-> ->]; auto.
  - rewrite orb_true_iff, IHa, IHb; tauto.
Qed.

Lemma alt_sem ci a b s : lang ci (alt a b) s <-> lang ci a s \/ lang ci b s.
Proof. destruct a, b; simpl; tauto. Qed.

Lemma cat_sem ci a b s :
  lang ci (cat a b) s <-> exists s1 s2, s = s1 ++ s2 /\ lang ci a s1 /\ lang ci b s2.
Proof.
  destruct a; simpl; try reflexivity.
  - split; [tauto | intros (s1 & s2 & _ & [] & _)].
  - split.
    + intros H; exists [], s; auto.
    + intros (s1 & s2 & -> & -> & H); exact H.
Qed.

Lemma deriv_sem ci c r w : lang ci (deriv ci c r) w <-> lang ci r (c :: w).
Proof.
  revert w; induction r as [| | rs | a IHa b IHb | a IHa b IHb]; intros w; simpl.
  - tauto.
  - split; [tauto | discriminate].
  - destruct (class_test ci rs c) eqn:E; simpl.
    + split.
      * intros ->; eauto.
      * intros (d & H & _); now inversion H.
    + split; [tauto | intros (d & H & T); inversion H; subst; congruence].
  - destruct (nullable a) eqn:Na.
    + rewrite alt_sem, cat_sem, IHb. setoid_rewrite IHa. split.
      * intros [(s1 & s2 & -> & Ha & Hb) | Hb].
        -- exists (c :: s1), s2; auto.
        -- exists [], (c :: w); repeat split; auto. now apply nullable_sem.
      * intros ([| c' s1] & s2 & E & Ha & Hb); simpl in E.
        -- subst s2; right; exact Hb.
        -- inversion E; subst; left; eauto.
    + rewrite cat_sem. setoid_rewrite IHa. split.
      * intros (s1 & s2 & -> & Ha & Hb); exists (c :: s1), s2; auto.
      * intros ([| c' s1] & s2 & E & Ha & Hb); simpl in E.
        -- apply (nullable_sem ci) in Ha; congruence.
        -- inversion E; subst; eauto.
  - rewrite alt_sem, IHa, IHb; tauto.
Qed.

Lemma matches_sem ci r s : matches ci r s = true <-> lang ci r s.
Proof.
  revert r; induction s as [| c s IH]; intros r; simpl.
  - apply nullable_sem.
  - rewrite IH; apply deriv_sem.
Qed.

Lemma rep_sem ci lo hi r s :
  lang ci (rep lo hi r) s <->
  exists ws, s = List.concat ws /\ lo <= List.length ws <= hi /\ Forall (lang ci r) ws.
Proof.
  revert lo s; induction hi as [| h IH]; intros lo s; destruct lo as [| l]; simpl.
  - split.
    + intros ->; exists []; simpl; auto.
    + intros ([| w ws] & E & L & _); simpl in *; [exact E | lia].
  - split; [tauto | intros (ws & _ & L & _); lia].
  - split.
    + intros [(s1 & s2 & -> & H1 & H2) | ->].
      * apply IH in H2 as (ws & -> & L & F).
        exists (s1 :: ws); simpl; repeat split; auto; lia.
      * exists []; simpl; auto with arith.
    + intros ([| w ws] & E & L & F); simpl in *.
      * right; exact E.
      * inversion F; subst. left; exists w, (List.concat ws); repeat split; auto.
        apply IH; exists ws; repeat split; auto; lia.
  - split.
    + intros (s1 & s2 & -> & H1 & H2).
      apply IH in H2 as (ws & -> & L & F).
      exists (s1 :: ws); simpl; repeat split; auto; lia.
    + intros ([| w ws] & E & L & F); simpl in *; [lia |].
      inversion F; subst. exists w, (List.concat ws); repeat split; auto.
      apply IH; exists ws; repeat split; auto; lia.
Qed.

Lemma Forall_iff_ext {A} (P Q : A -> Prop) l :
  (forall x, P x <-> Q x) -> Forall P l <-> Forall Q l.
Proof. intros H; split; apply Forall_impl; firstorder. Qed.

Lemma compile_sem ci p s : lang ci (compile p) s <-> pmatch ci p s.
Proof.
  revert s; induction p as [| c | rs | p IHp q IHq | p IHp q IHq | lo hi p IHp];
    intros s; simpl.
  - reflexivity.
  - setoid_rewrite class_test_sem. unfold class_sem, in_ranges; simpl. split.
    + intros (d & -> & m & Hm & Hc); exists d; split; auto.
      rewrite orb_false_r in Hm; leb_cases; try discriminate.
      replace c with m by lia; exact Hc.
    + intros (d & -> & Hc); exists d; split; auto; exists c; split; auto.
      leb_cases; lia.
  - setoid_rewrite class_test_sem; reflexivity.
  - setoid_rewrite IHp; setoid_rewrite IHq; reflexivity.
  - rewrite IHp, IHq; reflexivity.
  - rewrite rep_sem. setoid_rewrite (Forall_iff_ext _ _ _ IHp). reflexivity.
Qed.

(** The executable [test] agrees with the declarative semantics. *)
Lemma regex_test_sem ci p s : regex_test ci p s = true <-> pmatch ci p s.
Proof. unfold regex_test; rewrite matches_sem; apply compile_sem. Qed.

(** ** Pattern lemmas *)

Lemma psim_sem ci p q s : psim p q -> pmatch ci p s <-> pmatch ci q s.
Proof.
  intros Hs; revert s; induction Hs; intros s; simpl.
  - reflexivity.
  - reflexivity.
  - unfold class_sem. setoid_rewrite H. reflexivity.
  - unfold class_sem. setoid_rewrite H. split.
    + intros (d & -> & m & -> & Hd); eauto.
    + intros (d & -> & Hd); eauto.
  - setoid_rewrite IHHs1; setoid_rewrite IHHs2; reflexivity.
  - rewrite IHHs1, IHHs2; reflexivity.
  - setoid_rewrite (Forall_iff_ext _ _ _ IHHs). reflexivity.
  - rewrite IHHs. split.
    + intros H; exists s, []; rewrite app_nil_r; auto.
    + intros (s1 & s2 & -> & H & ->); rewrite app_nil_r; exact H.
Qed.

Lemma rep_class_sem ci lo hi rs s :
  pmatch ci (PRep lo hi (PClass rs)) s <->
  lo <= List.length s <= hi /\ Forall (class_sem ci rs) s.
Proof.
  simpl. split.
  - intros (ws & -> & L & F).
    assert (List.length (List.concat ws) = List.length ws
            /\ Forall (class_sem ci rs) (List.concat ws)) as [-> HF].
    { clear L; induction F as [| w ws (d & -> & Hd) _ [IHl IHf]]; simpl; auto. }
    auto.
  - intros [L F]. exists (map (fun d => [d]) s).
    rewrite length_map. split; [| split; [exact L |]].
    + clear L F; induction s; simpl; congruence.
    + apply Forall_map. eapply Forall_impl; [| exact F]. intros d Hd; eauto.
Qed.

Lemma hex_class_sem (rs : ranges) x :
  (forall m, in_ranges rs m = true <-> is_hex_char m) ->
  class_sem false rs x <-> is_hex_char x.
Proof.
  intros H; unfold class_sem, ceq. setoid_rewrite H. split.
  - intros (m & Hm & ->); exact Hm.
  - eauto.
Qed.

Lemma md5_ranges m :
  in_ranges [rng "a" "f"; rng "A" "F"; rng "0" "9"] m = true <-> is_hex_char m.
Proof. unfold in_ranges, is_hex_char; simpl; leb_cases; intuition (try lia; try discriminate). Qed.

Lemma sha_ranges m :
  in_ranges [rng "A" "F"; rng "a" "f"; rng "0" "9"] m = true <-> is_hex_char m.
Proof. unfold in_ranges, is_hex_char; simpl; leb_cases; intuition (try lia; try discriminate). Qed.

Lemma md5_test_sem s : regex_test false md5HashPattern s = true <-> hex_string 32 s.
Proof.
  rewrite regex_test_sem; unfold md5HashPattern, hex_string.
  rewrite rep_class_sem.
  rewrite (Forall_iff_ext _ _ _ (fun x => hex_class_sem _ x md5_ranges)).
  intuition lia.
Qed.

Lemma sha1_test_sem s : regex_test false sha1HashPattern s = true <-> hex_string 40 s.
Proof.
  rewrite regex_test_sem; unfold sha1HashPattern, hex_string.
  rewrite rep_class_sem.
  rewrite (Forall_iff_ext _ _ _ (fun x => hex_class_sem _ x sha_ranges)).
  intuition lia.
Qed.

Lemma sha256_test_sem s : regex_test false sha256HashPattern s = true <-> hex_string 64 s.
Proof.
  rewrite regex_test_sem; unfold sha256HashPattern, hex_string.
  rewrite rep_class_sem.
  rewrite (Forall_iff_ext _ _ _ (fun x => hex_class_sem _ x sha_ranges)).
  intuition lia.
Qed.

Ltac psim_tac :=
  repeat first
    [ apply ps_empty | apply ps_char | apply ps_cat | apply ps_alt | apply ps_rep
    | apply ps_class_char; intros m; unfold in_ranges, one, ch; simpl;
      leb_cases; split; intros; try lia; discriminate
    | apply ps_class; intros c; unfold in_ranges; simpl; btauto
    | apply ps_cat_empty ].

Lemma bcrypt_psim : psim bcryptHashPattern spec_bcrypt.
Proof. unfold bcryptHashPattern, spec_bcrypt, pseq; simpl fold_right. psim_tac. Qed.

Lemma argon2_psim : psim argon2HashPattern spec_argon2.
Proof.
  unfold argon2HashPattern, spec_argon2, pseq, plit, js; simpl. psim_tac.
Qed.

Lemma bcrypt_test_sem s :
  regex_test false bcryptHashPattern s = true <-> pmatch false spec_bcrypt s.
Proof. rewrite regex_test_sem. apply psim_sem, bcrypt_psim. Qed.

Lemma argon2_test_sem s :
  regex_test true argon2HashPattern s = true <-> pmatch true spec_argon2 s.
Proof. rewrite regex_test_sem. apply psim_sem, argon2_psim. Qed.

Lemma pmatch_cat_char ci c p s :
  pmatch ci (PCat (PChar c) p) s -> exists d r, s = d :: r /\ ceq ci c d /\ pmatch ci p r.
Proof. intros (s1 & s2 & -> & (d & -> & Hd) & H); simpl; eauto. Qed.

Lemma pmatch_cat_class ci rs p s :
  pmatch ci (PCat (PClass rs) p) s -> exists d r, s = d :: r /\ class_sem ci rs d /\ pmatch ci p r.
Proof. intros (s1 & s2 & -> & (d & -> & Hd) & H); simpl; eauto. Qed.

Lemma pmatch_cat_l ci p q s :
  pmatch ci (PCat p q) s -> exists s1 s2, s = s1 ++ s2 /\ pmatch ci p s1.
Proof. intros (s1 & s2 & -> & H & _); eauto. Qed.

(** A bcrypt hash starts with [$2]. *)
Lemma bcrypt_head s :
  regex_test false bcryptHashPattern s = true -> exists r, s = 36%N :: 50%N :: r.
Proof.
  rewrite regex_test_sem; intros H.
  apply pmatch_cat_class in H as (d1 & r1 & -> & (m & Hm & E1) & H).
  apply pmatch_cat_char in H as (d2 & r2 & -> & E2 & _).
  unfold ceq, in_ranges, one, ch in *; simpl in *; subst.
  leb_cases; try discriminate.
  replace d1 with 36%N by lia; eauto.
Qed.

(** An Argon2 hash starts with [$] and an [a] or [A]. *)
Lemma argon2_head s :
  regex_test true argon2HashPattern s = true ->
  exists c r, s = 36%N :: c :: r /\ (c = 97 \/ c = 65)%N.
Proof.
  rewrite regex_test_sem; intros H.
  apply pmatch_cat_l in H as (s1 & s2 & -> & H).
  apply pmatch_cat_char in H as (d1 & r1 & -> & E1 & H).
  apply pmatch_cat_char in H as (d2 & r2 & -> & E2 & _).
  unfold ceq in E1, E2. symmetry in E1, E2.
  apply canon_eq_iff in E1, E2. unfold ch in *; simpl in *.
  exists d2, (r2 ++ s2); split.
  - replace d1 with 36%N by lia; reflexivity.
  - lia.
Qed.

Lemma hex_head n c r : hex_string n (c :: r) -> is_hex_char c.
Proof. intros [_ F]; inversion F; auto. Qed.

Lemma dollar_not_hex : ~ is_hex_char 36%N.
Proof. unfold is_hex_char; lia. Qed.

Lemma js_str_ok `{BufferLib} (s : jsstring) :
  isBcrypt (JStr s) = Ok (regex_test false bcryptHashPattern s)
  /\ isArgon2 (JStr s) = Ok (regex_test true argon2HashPattern s)
  /\ isMD5 (JStr s) = Ok (regex_test false md5HashPattern s)
  /\ isSHA1 (JStr s) = Ok (regex_test false sha1HashPattern s)
  /\ isSHA256 (JStr s) = Ok (regex_test false sha256HashPattern s).
Proof. repeat split. Qed.

Lemma decides_test (b : bool) (P : Prop) : (b = true <-> P) -> decides (Ok b) P.
Proof.
  intros H; split.
  - split; [intros E; inversion E; apply H; auto | intros HP; apply H in HP; now subst].
  - split.
    + intros E HP; inversion E; subst. apply H in HP; discriminate.
    + intros HN; destruct b; [exfalso; apply HN, H; auto | reflexivity].
Qed.

(** ** Claim C1 *)

(** C1: on every string, each classifier returns true exactly when the
    string matches its format of the spec's table and false otherwise:
    [isBcrypt] the bcrypt pattern, [isArgon2] the PHC pattern matched
    case-insensitively, [isMD5], [isSHA1], [isSHA256] exactly 32, 40 and 64
    hexadecimal characters. *)
Theorem classifiers_match_spec `{BufferLib} (s : jsstring) :
  decides (isBcrypt (JStr s)) (pmatch false spec_bcrypt s)
  /\ decides (isArgon2 (JStr s)) (pmatch true spec_argon2 s)
  /\ decides (isMD5 (JStr s)) (hex_string 32 s)
  /\ decides (isSHA1 (JStr s)) (hex_string 40 s)
  /\ decides (isSHA256 (JStr s)) (hex_string 64 s).
Proof.
  destruct (js_str_ok s) as (-> & -> & -> & -> & ->).
  split; [| split; [| split; [| split]]]; apply decides_test.
  - apply bcrypt_test_sem.
  - apply argon2_test_sem.
  - apply md5_test_sem.
  - apply sha1_test_sem.
  - apply sha256_test_sem.
Qed.

(** ** Claim C9 *)

(** C9: the five classifiers are pairwise exclusive: on any string at most
    one of them returns true (the hex classifiers need 32, 40 and 64
    characters; bcrypt and Argon2 hashes start with [$], which is not a hex
    character, followed by [2] and by [a]/[A] respectively). *)
Theorem classifiers_exclusive `{BufferLib} (s : jsstring) :
  List.length (filter accepts (classifier_results (JStr s))) <= 1.
Proof.
  unfold classifier_results.
  destruct (js_str_ok s) as (-> & -> & -> & -> & ->).
  destruct (regex_test false bcryptHashPattern s) eqn:Eb;
  destruct (regex_test true argon2HashPattern s) eqn:Ea;
  destruct (regex_test false md5HashPattern s) eqn:Em;
  destruct (regex_test false sha1HashPattern s) eqn:E1;
  destruct (regex_test false sha256HashPattern s) eqn:E2;
  simpl; try lia; exfalso;
  repeat match goal with
  | H : regex_test false md5HashPattern _ = true |- _ => apply md5_test_sem in H
  | H : regex_test false sha1HashPattern _ = true |- _ => apply sha1_test_sem in H
  | H : regex_test false sha256HashPattern _ = true |- _ => apply sha256_test_sem in H
  | H : regex_test false bcryptHashPattern _ = true |- _ =>
      apply bcrypt_head in H as (? & ->)
  | H : regex_test true argon2HashPattern _ = true |- _ =>
      apply argon2_head in H as (? & ? & ? & ?)
  end;
  repeat match goal with
  | H : ?v = _ |- _ => is_var v; subst v
  | H : hex_string _ (_ :: _) |- _ => apply hex_head in H; apply dollar_not_hex in H; contradiction
  | H : _ :: _ = _ :: _ |- _ => inversion H; subst; clear H
  | H1 : hex_string _ ?s, H2 : hex_string _ ?s |- _ =>
      destruct H1 as [L1 _], H2 as [L2 _]; rewrite L1 in L2; discriminate
  end; lia.
Qed.

(** ** Claim C4 *)

(** C4 as stated fails: [isBcrypt(null)] throws the [TypeError] of
    [null.toString()] instead of returning [false]. *)
Lemma classifier_null_throws :
  isBcrypt JNull = Throw TypeError /\ isMD5 JUndefined = Throw TypeError.
Proof. split; reflexivity. Qed.

(** C4 (amended): on every string each classifier returns a boolean and
    throws nothing; on a [Buffer] each one returns a boolean when
    [data.toString()] succeeds, that is when the buffer has at most
    [kMaxLength] bytes, and otherwise throws the [ERR_STRING_TOO_LONG] of
    [toString]; on [null] and [undefined], outside the declared type
    [string | Buffer], each one throws a [TypeError]. *)
Theorem classifiers_total_on_declared_type `{BufferLib} :
  (forall s, Forall (fun o => exists b, o = Ok b) (classifier_results (JStr s)))
  /\ (forall bs, (N.of_nat (List.length bs) <= kMaxLength)%N ->
        Forall (fun o => exists b, o = Ok b) (classifier_results (JBuf bs)))
  /\ (forall bs, (kMaxLength < N.of_nat (List.length bs))%N ->
        Forall (fun o => o = Throw ERR_STRING_TOO_LONG) (classifier_results (JBuf bs)))
  /\ Forall (fun o => o = Throw TypeError) (classifier_results JNull)
  /\ Forall (fun o => o = Throw TypeError) (classifier_results JUndefined).
Proof.
  split; [intros s; repeat constructor; eexists; reflexivity |].
  split; [| split; [| split; repeat constructor]].
  - intros bs Hb. unfold classifier_results, isBcrypt, isArgon2, isMD5, isSHA1, isSHA256, js_toString.
    unfold exceeds_kMaxLength. replace (kMaxLength <? N.of_nat (List.length bs))%N with false
      by (symmetry; apply N.ltb_ge; exact Hb).
    repeat constructor; eexists; reflexivity.
  - intros bs Hb. unfold classifier_results, isBcrypt, isArgon2, isMD5, isSHA1, isSHA256, js_toString.
    unfold exceeds_kMaxLength. replace (kMaxLength <? N.of_nat (List.length bs))%N with true
      by (symmetry; apply N.ltb_lt; exact Hb).
    repeat constructor.
Qed.

Lemma classifiers_total_on_declared_type_witness :
  (N.of_nat (List.length [36; 50; 98]%N) <= kMaxLength)%N
  /\ Forall (fun o => exists b, o = Ok b) (classifier_results (JBuf [36; 50; 98]%N)).
Proof.
  assert (Hb : (N.of_nat (List.length [36; 50; 98]%N) <= kMaxLength)%N)
    by (vm_compute; discriminate).
  split; [exact Hb |].
  destruct classifiers_total_on_declared_type as (_ & H & _). exact (H _ Hb).
Defined.

(** ** Claims C3 and C8 *)

Lemma own_get_literal `{BufferLib} t (props : list (string * jsval)) :
  ~ In t (map fst props) -> own_get props t = None.
Proof.
  induction props as [| [k v] rest IH]; simpl; auto.
  intros Hn. destruct (String.eqb_spec t k); [subst; tauto | auto].
Qed.

(** C3: the code misses the claim by a slip.  [mapValidationByHashType]
    is typed to return a boolean and its object literal has a
    [default: false] entry, but indexing the literal with a name outside
    [HashValueType] never reaches that entry: the validator configured with
    ["unknown-type"] returns [undefined] on an MD5 string, and with
    ["toString"] the inherited [Object.prototype.toString], while ["md5"]
    itself is dispatched correctly. *)
Lemma dispatch_unknown_is_undefined :
  validate (Some "unknown-type"%string) (JStr (js "5d41402abc4b2a76b9719d911017c592"))
  = Ok JUndefined
  /\ validate (Some "toString"%string) (JStr (js "5d41402abc4b2a76b9719d911017c592"))
     = Ok (JFun "toString")
  /\ validate (Some "md5"%string) (JStr (js "5d41402abc4b2a76b9719d911017c592"))
     = Ok (JBool true).
Proof. vm_compute. repeat split. Qed.

(** C8: whatever type is configured, [validate] returns [false] on every
    value that is not a string, before any format dispatch. *)
Theorem validate_rejects_non_strings `{BufferLib} (type : option string) (v : jsval) :
  (forall s, v <> JStr s) -> validate type v = Ok (JBool false).
Proof. intros Hv; destruct v; simpl; auto. exfalso; eapply Hv; reflexivity. Qed.

Lemma validate_rejects_non_strings_witness :
  (forall s, JNum 5 <> JStr s) /\ validate (Some "md5"%string) (JNum 5) = Ok (JBool false).
Proof.
  split; [intros s; discriminate |].
  apply validate_rejects_non_strings. intros s; discriminate.
Defined.

(** ** Claim C2 *)

(** C2 as stated fails: before any [setInstance], [getInstance()] returns
    [undefined] and raises nothing. *)
Lemma getInstance_unset_returns_undefined : getInstance HashBin_new = Ok None.
Proof. reflexivity. Qed.

(** C2 (amended): [getInstance()] on a fresh holder returns [undefined]
    (no error, no default strategy); after [setInstance(x)] with an instance
    it returns that same reference and nothing is allocated.
    [setInstance(C)] with a constructor stores the value of [new C()]: when
    the constructor throws, [setInstance] throws the same error; when it
    returns an object of its own, [getInstance()] returns that object;
    otherwise [getInstance()] returns the object [new] allocated, of class
    [C] and distinct from every object that existed before.  The
    constructors of [BcryptService], [Argon2Service] and [Pbkdf2Strategy]
    return nothing and throw nothing, so for them it is always that new
    object. *)
Theorem hashbin_get_set `{StrategyClasses} :
  getInstance HashBin_new = Ok None
  /\ (forall hb h l, exists hb',
        setInstance hb h (StrategyInstance l) = Ok (hb', h) /\ getInstance hb' = Ok (Some l))
  /\ (forall hb h c e, class_ctor c (next_loc h) (alloc c h) = Throw e ->
        setInstance hb h (StrategyConstructor c) = Throw e)
  /\ (forall hb h c l h', class_ctor c (next_loc h) (alloc c h) = Ok (Some l, h') ->
        exists hb', setInstance hb h (StrategyConstructor c) = Ok (hb', h')
                    /\ getInstance hb' = Ok (Some l))
  /\ (forall hb h c h', heap_wf h -> class_ctor c (next_loc h) (alloc c h) = Ok (None, h') ->
        exists hb', setInstance hb h (StrategyConstructor c) = Ok (hb', h')
                    /\ getInstance hb' = Ok (Some (next_loc h))
                    /\ ~ In (next_loc h) (map fst (objects h))
                    /\ In (next_loc h, c) (objects (alloc c h)))
  /\ (forall hb h c, heap_wf h -> (forall name, c <> UserStrategyClass name) ->
        exists hb', setInstance hb h (StrategyConstructor c) = Ok (hb', alloc c h)
                    /\ getInstance hb' = Ok (Some (next_loc h))
                    /\ ~ In (next_loc h) (map fst (objects h))
                    /\ heap_wf (alloc c h)).
Proof.
  split; [reflexivity |]. split; [intros; eexists; split; reflexivity |].
  split; [intros hb h c e E; unfold setInstance, js_new; rewrite E; reflexivity |].
  split; [intros hb h c l h' E; unfold setInstance, js_new; rewrite E; eexists; split; reflexivity |].
  split.
  - intros hb h c h' Hwf E. unfold setInstance, js_new. rewrite E.
    eexists; split; [reflexivity |]. split; [reflexivity |]. split.
    + intros Hin. apply Hwf in Hin. lia.
    + left; reflexivity.
  - intros hb h c Hwf Hc.
    assert (E : class_ctor c (next_loc h) (alloc c h) = Ok (None, alloc c h))
      by (destruct c; [reflexivity .. | exfalso; eapply Hc; reflexivity]).
    unfold setInstance, js_new. rewrite E.
    eexists; split; [reflexivity |]. split; [reflexivity |]. split.
    + intros Hin. apply Hwf in Hin. lia.
    + intros l [E' | Hin]; simpl in *; [subst; lia |]. apply Hwf in Hin; lia.
Qed.

Lemma hashbin_get_set_witness :
  let h0 := {| objects := [(0, BcryptServiceClass); (1, Argon2ServiceClass)]; next_loc := 2 |} in
  heap_wf h0
  /\ @class_ctor sample_strategy_classes (UserStrategyClass "Plain") 2 (alloc (UserStrategyClass "Plain") h0)
     = Ok (None, alloc (UserStrategyClass "Plain") h0)
  /\ (exists hb', @setInstance sample_strategy_classes HashBin_new h0
                    (StrategyConstructor (UserStrategyClass "Plain"))
                  = Ok (hb', alloc (UserStrategyClass "Plain") h0)
                  /\ getInstance hb' = Ok (Some 2)
                  /\ ~ In 2 (map fst (objects h0))
                  /\ In (2, UserStrategyClass "Plain") (objects (alloc (UserStrategyClass "Plain") h0)))
  /\ @setInstance sample_strategy_classes HashBin_new h0
       (StrategyConstructor (UserStrategyClass "Failing")) = Throw (Error "init failed")
  /\ (exists hb', @setInstance sample_strategy_classes HashBin_new h0
                    (StrategyConstructor (UserStrategyClass "Singleton"))
                  = Ok (hb', alloc (UserStrategyClass "Singleton") h0)
                  /\ getInstance hb' = Ok (Some 0)).
Proof.
  intros h0.
  assert (Hwf : heap_wf h0).
  { intros l Hl. simpl in Hl. destruct Hl as [<- | [<- | []]]; simpl; lia. }
  destruct (@hashbin_get_set sample_strategy_classes) as (_ & _ & Ht & Ho & Hf & _).
  split; [exact Hwf |]. split; [reflexivity |]. split; [| split].
  - apply (Hf HashBin_new h0 (UserStrategyClass "Plain") _ Hwf). reflexivity.
  - apply (Ht HashBin_new h0 (UserStrategyClass "Failing")). reflexivity.
  - apply (Ho HashBin_new h0 (UserStrategyClass "Singleton") 0). reflexivity.
Defined.

(** ** Claim C10 *)

(** C10: in [BcryptService.hash] a non-empty per-call salt is used as it
    is: the rounds option and the salt generator play no part, so the
    result is the same for every rounds value and every random draw; only
    without such a salt is a salt generated, with the per-call rounds when
    they are a non-zero number and with the library default otherwise. *)
Theorem bcrypt_salt_overrides_rounds `{BcryptLib} :
  (forall gen gen' data s r, s <> [] ->
     BcryptService_hash gen data (Some {| bc_salt := Some s; bc_rounds := r |})
     = BcryptService_hash gen' data (Some {| bc_salt := Some s; bc_rounds := None |})
     /\ BcryptService_hash gen data (Some {| bc_salt := Some s; bc_rounds := r |})
        = bcrypt_hash data s)
  /\ (forall gen data o, str_truthy (bc_salt o) = false ->
        BcryptService_hash gen data (Some o)
        = bcrypt_hash data (gen (if num_truthy (bc_rounds o) then bc_rounds o else None)))
  /\ (forall gen data, BcryptService_hash gen data None = bcrypt_hash data (gen None)).
Proof.
  split; [| split].
  - intros gen gen' data [| c cs] r Hs; [congruence |]. split; reflexivity.
  - intros gen data [[salt |] rounds] Hs; unfold BcryptService_hash, getSalt; simpl in *;
      rewrite ?Hs; simpl; destruct (num_truthy rounds); reflexivity.
  - reflexivity.
Qed.

Lemma bcrypt_salt_overrides_rounds_witness :
  BcryptService_hash (fun _ => js "$2b$12$saltsaltsaltsaltsaltsa") (BStr (js "pw"))
    (Some {| bc_salt := Some (js "$2b$10$abcdefghijklmnopqrstuu"); bc_rounds := Some 12%Z |})
  = bcrypt_hash (BStr (js "pw")) (js "$2b$10$abcdefghijklmnopqrstuu").
Proof.
  destruct bcrypt_salt_overrides_rounds as (H & _).
  apply (H _ (fun _ => []) _ _ _). discriminate.
Defined.

(** ** Claim C5 *)

(** C5 as stated fails: the layers are not merged field by field.  An
    [Argon2Service] built with [{ memoryCost: 8192 }] and called with
    [{ timeCost: 4 }] passes only the per-call object to argon2, which hashes
    with its default memory cost (65536), not the constructor's. *)
Lemma option_layers_not_merged :
  let ctor := {| memoryCost := Some 8192%Z; timeCost := None; parallelism := None;
                 hashLength := None |} in
  let per := {| memoryCost := None; timeCost := Some 4%Z; parallelism := None;
                hashLength := None |} in
  Argon2Service_hash_options {| a2_options := Some ctor |} (ArgValue per) = Some per
  /\ memoryCost (argon2_effective (Some per)) = Some 65536%Z.
Proof. simpl. split; reflexivity. Qed.

(** C5 (amended): [Pbkdf2Strategy.hash] takes each of salt, iterations,
    keylen and digest from the per-call options when set there, otherwise
    from the strategy's own options: the class defaults (16 random bytes,
    1000, 64, sha256) when the constructor received no options object, the
    constructor's object when it sets all four fields; without per-call
    options those options are used as they are (a constructor object that
    leaves fields unset is left out).  [Argon2Service.hash] given an options
    object passes exactly that object to argon2, whose own defaults fill
    the fields it lacks (the constructor's options are not merged in).
    [BcryptService] has no constructor options: a per-call salt is used,
    else a salt generated with the per-call rounds, else with the library's
    default. *)
Theorem strategy_option_precedence :
  (forall rnd c p, pb_complete c ->
     Pbkdf2_hash_options (Pbkdf2Strategy_new rnd (Some c)) (ArgValue p)
     = Ok {| pb_salt := nullish (pb_salt p) (pb_salt c);
             pb_iterations := nullish (pb_iterations p) (pb_iterations c);
             pb_keylen := nullish (pb_keylen p) (pb_keylen c);
             pb_digest := nullish (pb_digest p) (pb_digest c) |})
  /\ (forall rnd p,
        Pbkdf2_hash_options (Pbkdf2Strategy_new rnd None) (ArgValue p)
        = Ok {| pb_salt := nullish (pb_salt p) (Some (BBuf rnd));
                pb_iterations := nullish (pb_iterations p) (Some 1000%Z);
                pb_keylen := nullish (pb_keylen p) (Some 64%Z);
                pb_digest := nullish (pb_digest p) (Some "sha256"%string) |})
  /\ (forall rnd c, pb_complete c ->
        Pbkdf2_hash_options (Pbkdf2Strategy_new rnd (Some c)) ArgUndefined = Ok c)
  /\ (forall rnd, Pbkdf2_hash_options (Pbkdf2Strategy_new rnd None) ArgUndefined
                  = Ok (pbkdf2_defaults rnd))
  /\ (forall (A : Argon2Lib) svc o,
        Argon2Service_hash_options svc (ArgValue o) = Some o
        /\ argon2_effective (Some o)
           = {| memoryCost := nullish (memoryCost o) (memoryCost argon2_defaults);
                timeCost := nullish (timeCost o) (timeCost argon2_defaults);
                parallelism := nullish (parallelism o) (parallelism argon2_defaults);
                hashLength := nullish (hashLength o) (hashLength argon2_defaults) |})
  /\ (forall gen o,
        getSalt gen (Some o)
        = if str_truthy (bc_salt o) then or_else (bc_salt o) []
          else if num_truthy (bc_rounds o) then gen (bc_rounds o) else gen None).
Proof.
  split; [reflexivity |]. split; [reflexivity |].
  split; [intros rnd [s i k d] _; reflexivity |].
  split; [reflexivity |]. split; [intros A svc o; split; reflexivity |].
  intros gen [[[| c cs] |] rounds]; reflexivity.
Qed.

Lemma strategy_option_precedence_witness :
  let c := {| pb_salt := Some (BStr (js "mysalt")); pb_iterations := Some 1000%Z;
              pb_keylen := Some 32%Z; pb_digest := Some "sha512"%string |} in
  pb_complete c
  /\ Pbkdf2_hash_options (Pbkdf2Strategy_new (repeat 7%N 16) (Some c))
       (ArgValue {| pb_salt := None; pb_iterations := Some 2000%Z;
                    pb_keylen := None; pb_digest := None |})
     = Ok {| pb_salt := Some (BStr (js "mysalt")); pb_iterations := Some 2000%Z;
             pb_keylen := Some 32%Z; pb_digest := Some "sha512"%string |}.
Proof.
  intros c.
  assert (Hc : pb_complete c) by (repeat split; discriminate).
  split; [exact Hc |].
  destruct strategy_option_precedence as (H & _).
  exact (H (repeat 7%N 16) c _ Hc).
Defined.

(** ** Claim C6 *)

(** C6: [generateKeyPair()] without options throws the [TypeError] of
    reading [options.publicKeyEncoding] on [undefined], whatever the
    constructor received (the test rsa.service.spec.ts calls it so and
    expects a key pair); with options, the modulus length is always 2048,
    a per-call [modulusLength] being ignored, while the two encodings follow
    per-call, constructor, then default (spki/pem, pkcs8/pem). *)
Theorem rsa_generateKeyPair_options `{RsaLib} :
  (forall svc, RsaService_generateKeyPair svc None = Throw TypeError)
  /\ (forall svc o,
        exists f, RsaService_getFinalOptions svc (Some o) = Ok f
                  /\ modulusLength f = Some 2048%Z
                  /\ publicKeyEncoding f
                     = Some (or_else (nullish (publicKeyEncoding o)
                                        (match rsa_options svc with
                                         | Some t => publicKeyEncoding t | None => None end))
                               spki_pem)).
Proof.
  split; [reflexivity |].
  intros svc o; eexists; split; [reflexivity | split; reflexivity].
Qed.

(** ** Claim C7 *)

Lemma nullish_idem {A} (a b : option A) : nullish (nullish a b) b = nullish a b.
Proof. destruct a, b; reflexivity. Qed.

Lemma getFinalOptions_idem st o :
  getFinalOptions st (getFinalOptions st o) = getFinalOptions st o.
Proof.
  destruct o as [s i k d]; unfold getFinalOptions; simpl.
  rewrite !nullish_idem; reflexivity.
Qed.

Lemma getFinalOptions_own st : getFinalOptions st (pb_options st) = getFinalOptions st pb_empty.
Proof.
  destruct st as [[s i k d]]; unfold getFinalOptions; simpl.
  destruct s, i, k, d; reflexivity.
Qed.

Lemma Pbkdf2_hash_options_ext `{CryptoLib} st data a1 a2 :
  Pbkdf2_hash_options st a1 = Pbkdf2_hash_options st a2 ->
  Pbkdf2_hash st data a1 = Pbkdf2_hash st data a2.
Proof. unfold Pbkdf2_hash; intros ->; reflexivity. Qed.

Lemma jsstring_eqb_refl a : jsstring_eqb a a = true.
Proof. unfold jsstring_eqb; destruct (list_eq_dec N.eq_dec a a); congruence. Qed.

(** C7 as stated fails: the distinct salts ["\uD800"] and ["\uDC00"] (lone
    surrogates) are both read as the UTF-8 bytes of U+FFFD, so the two
    digests are equal, even with a PBKDF2 that keeps every salt byte. *)
Lemma pbkdf2_lone_surrogate_salts_collide :
  let st := Pbkdf2Strategy_new (repeat 7%N 16) None in
  BStr [55296%N] <> BStr [56320%N]
  /\ Pbkdf2_hash st (BStr (js "test")) (ArgValue (salt_only (BStr [55296%N])))
     = Ok ([239; 191; 189]%N ++ js "test")
  /\ Pbkdf2_hash st (BStr (js "test")) (ArgValue (salt_only (BStr [56320%N])))
     = Ok ([239; 191; 189]%N ++ js "test").
Proof. simpl. split; [discriminate | split; vm_compute; reflexivity]. Qed.

(** C7 (amended): [compare(data, hash(data, opts), opts)] is [true] for
    every [opts] for which [hash] succeeds; the digest depends on the salt
    only through its bytes, so salts with the same UTF-8 encoding give the
    same digest. *)
Theorem pbkdf2_roundtrip_and_salt_bytes `{CryptoLib} :
  (forall st data arg h,
     Pbkdf2_hash st data arg = Ok h -> Pbkdf2_compare st data (BStr h) arg = Ok true)
  /\ (forall st data s1 s2, binary_bytes s1 = binary_bytes s2 ->
        Pbkdf2_hash st data (ArgValue (salt_only s1))
        = Pbkdf2_hash st data (ArgValue (salt_only s2))).
Proof.
  split.
  - intros st data arg h Hh. destruct arg as [| | o].
    + unfold Pbkdf2_compare; simpl.
      rewrite (Pbkdf2_hash_options_ext st data (ArgValue _) ArgUndefined), Hh; simpl.
      * now rewrite jsstring_eqb_refl.
      * simpl. now rewrite getFinalOptions_own, getFinalOptions_idem.
    + discriminate.
    + unfold Pbkdf2_compare; simpl.
      rewrite (Pbkdf2_hash_options_ext st data (ArgValue _) (ArgValue o)), Hh; simpl.
      * now rewrite jsstring_eqb_refl.
      * simpl. now rewrite getFinalOptions_idem.
  - intros st data s1 s2 E. unfold Pbkdf2_hash, crypto_pbkdf2; simpl.
    destruct (pb_iterations (pb_options st)), (pb_keylen (pb_options st)),
      (pb_digest (pb_options st)); simpl; try reflexivity.
    now rewrite E.
Qed.

Lemma pbkdf2_roundtrip_and_salt_bytes_witness :
  Pbkdf2_hash (Pbkdf2Strategy_new (repeat 7%N 16) None) (BStr (js "test")) ArgUndefined
  = Ok (repeat 7%N 16 ++ js "test")
  /\ Pbkdf2_compare (Pbkdf2Strategy_new (repeat 7%N 16) None) (BStr (js "test"))
       (BStr (repeat 7%N 16 ++ js "test")) ArgUndefined = Ok true.
Proof.
  assert (Hh : Pbkdf2_hash (Pbkdf2Strategy_new (repeat 7%N 16) None) (BStr (js "test"))
                 ArgUndefined = Ok (repeat 7%N 16 ++ js "test"))
    by (vm_compute; reflexivity).
  split; [exact Hh |].
  destruct pbkdf2_roundtrip_and_salt_bytes as (H & _). exact (H _ _ _ _ Hh).
Defined.

(* ================================================================== *)
(** * Further properties of the code *)

Ltac narith := zify; Z.to_euclidean_division_equations; lia.

(** ** Classifiers and ASCII letter case *)

Lemma canon_idem c : canon (canon c) = canon c.
Proof. unfold canon, is_lower. leb_cases; lia. Qed.

Lemma map_canon_concat (ws : list jsstring) t :
  map canon t = map canon (List.concat ws) ->
  exists wt : list jsstring, t = List.concat wt /\ List.length wt = List.length ws
             /\ Forall2 (fun w w' => map canon w = map canon w') ws wt.
Proof.
  revert t; induction ws as [| w ws IH]; intros t E; simpl in *.
  - destruct t; [| discriminate]. exists []; repeat split; constructor.
  - rewrite map_app in E. apply map_eq_app in E as (t1 & t2 & -> & E1 & E2).
    destruct (IH t2 E2) as (wt & -> & Hl & Hf).
    exists (t1 :: wt); simpl; repeat split; [lia |]. constructor; auto.
Qed.

Lemma pmatch_canon p : forall s t,
  map canon s = map canon t -> pmatch true p s -> pmatch true p t.
Proof.
  induction p as [| c | rs | p1 IH1 p2 IH2 | p1 IH1 p2 IH2 | lo hi p IH];
    intros s t E H; simpl in *.
  - subst; destruct t; [reflexivity | discriminate].
  - destruct H as (d & -> & Hd). destruct t as [| e [| ]]; simpl in E; try discriminate.
    injection E as E. exists e; split; [reflexivity |]. unfold ceq in *; congruence.
  - destruct H as (d & -> & m & Hm & Hd). destruct t as [| e [| ]]; simpl in E; try discriminate.
    injection E as E. exists e; split; [reflexivity |]. exists m; split; [exact Hm |].
    unfold ceq in *; congruence.
  - destruct H as (s1 & s2 & -> & H1 & H2). rewrite map_app in E. symmetry in E.
    apply map_eq_app in E as (t1 & t2 & -> & E1 & E2).
    exists t1, t2; split; [reflexivity |]. split.
    + apply (IH1 s1); auto.
    + apply (IH2 s2); auto.
  - destruct H as [H | H]; [left; apply (IH1 s) | right; apply (IH2 s)]; auto.
  - destruct H as (ws & -> & Hl & Hf). symmetry in E.
    destruct (map_canon_concat ws t E) as (wt & -> & Hlen & H2).
    exists wt; split; [reflexivity |]. split; [unfold jsstring in *; lia |].
    clear Hl Hlen E. induction H2; inversion Hf; subst; constructor; eauto.
Qed.

Lemma hex_char_canon c d : canon c = canon d -> is_hex_char c -> is_hex_char d.
Proof. unfold canon, is_lower, is_hex_char. leb_cases; lia. Qed.

Lemma hex_string_canon n s t :
  map canon s = map canon t -> hex_string n s -> hex_string n t.
Proof.
  intros E [Hl Hf]. split.
  - rewrite <- (length_map canon t), <- E, length_map; exact Hl.
  - clear Hl. revert t E; induction Hf as [| c s Hc Hf IH]; intros [| d t] E;
      simpl in E; try discriminate; [constructor |].
    injection E as E1 E2. constructor; [exact (hex_char_canon c d E1 Hc) | auto].
Qed.

Lemma test_eq_iff (a b : bool) : (a = true <-> b = true) -> a = b.
Proof. destruct a, b; intuition congruence. Qed.

(** X1: [isArgon2], [isMD5], [isSHA1] and [isSHA256] give the same answer
    on two strings that differ only in the case of ASCII letters. *)
Theorem classifiers_ignore_ascii_case `{BufferLib} s t :
  map canon s = map canon t ->
  isArgon2 (JStr s) = isArgon2 (JStr t) /\ isMD5 (JStr s) = isMD5 (JStr t)
  /\ isSHA1 (JStr s) = isSHA1 (JStr t) /\ isSHA256 (JStr s) = isSHA256 (JStr t).
Proof.
  intros E. unfold isArgon2, isMD5, isSHA1, isSHA256; simpl.
  split; [| split; [| split]]; f_equal; apply test_eq_iff.
  - rewrite !regex_test_sem.
    split; apply pmatch_canon; [exact E | symmetry; exact E].
  - rewrite !md5_test_sem. split; apply hex_string_canon; [exact E | symmetry; exact E].
  - rewrite !sha1_test_sem. split; apply hex_string_canon; [exact E | symmetry; exact E].
  - rewrite !sha256_test_sem. split; apply hex_string_canon; [exact E | symmetry; exact E].
Qed.

Lemma classifiers_ignore_ascii_case_witness :
  map canon (js "0123456789ABCDEFabcdef0123456789") = map canon (js "0123456789abcdefABCDEF0123456789")
  /\ isMD5 (JStr (js "0123456789ABCDEFabcdef0123456789"))
     = isMD5 (JStr (js "0123456789abcdefABCDEF0123456789")).
Proof.
  assert (E : map canon (js "0123456789ABCDEFabcdef0123456789")
              = map canon (js "0123456789abcdefABCDEF0123456789")) by (vm_compute; reflexivity).
  split; [exact E |]. apply (classifiers_ignore_ascii_case _ _ E).
Defined.

(** ** Lengths of accepted hashes *)

Lemma concat_length_bounds (ws : list jsstring) a b :
  Forall (fun w => a <= List.length w <= b) ws ->
  List.length ws * a <= List.length (List.concat ws) <= List.length ws * b.
Proof.
  induction 1 as [| w ws Hw Hf IH]; simpl; [lia |]. rewrite length_app. lia.
Qed.

Lemma pmatch_length ci p s : pmatch ci p s -> minlen p <= List.length s <= maxlen p.
Proof.
  revert s; induction p as [| c | rs | p1 IH1 p2 IH2 | p1 IH1 p2 IH2 | lo hi p IH];
    intros s H; simpl in *.
  - subst; simpl; lia.
  - destruct H as (d & -> & _); simpl; lia.
  - destruct H as (d & -> & _); simpl; lia.
  - destruct H as (s1 & s2 & -> & H1 & H2). rewrite length_app.
    apply IH1 in H1; apply IH2 in H2; lia.
  - destruct H as [H | H]; [apply IH1 in H | apply IH2 in H]; lia.
  - destruct H as (ws & -> & Hl & Hf).
    assert (Hb : Forall (fun w => minlen p <= List.length w <= maxlen p) ws)
      by (eapply Forall_impl; [| exact Hf]; intros w Hw; apply IH; exact Hw).
    apply concat_length_bounds in Hb. unfold jsstring in *. nia.
Qed.

(** X2: every string [isBcrypt] accepts has 59 or 60 code units, and every
    string [isArgon2] accepts has between 55 and 265 code units. *)
Theorem classifier_accepted_lengths `{BufferLib} s :
  (isBcrypt (JStr s) = Ok true -> List.length s = 59 \/ List.length s = 60)
  /\ (isArgon2 (JStr s) = Ok true -> 55 <= List.length s <= 265).
Proof.
  unfold isBcrypt, isArgon2; simpl. split; intros Hm; injection Hm as Hm;
    apply regex_test_sem, pmatch_length in Hm.
  - change (minlen bcryptHashPattern) with 59 in Hm.
    change (maxlen bcryptHashPattern) with 60 in Hm. lia.
  - change (minlen argon2HashPattern) with 55 in Hm.
    change (maxlen argon2HashPattern) with 265 in Hm. lia.
Qed.

Lemma classifier_accepted_lengths_witness :
  isBcrypt (JStr (js "$2b$10$N9qo8uLOickgx2ZMRZoMyeIjZAgcfl7p92ldGxad68LJZdL17lhWy")) = Ok true
  /\ List.length (js "$2b$10$N9qo8uLOickgx2ZMRZoMyeIjZAgcfl7p92ldGxad68LJZdL17lhWy") = 60.
Proof.
  assert (H : isBcrypt (JStr (js "$2b$10$N9qo8uLOickgx2ZMRZoMyeIjZAgcfl7p92ldGxad68LJZdL17lhWy"))
              = Ok true) by (vm_compute; reflexivity).
  split; [exact H |].
  destruct (proj1 (classifier_accepted_lengths _) H) as [E | E];
    [vm_compute in E; discriminate | exact E].
Defined.

(** ** The validator never throws *)

(** X3: [validate] never throws: for every configured type (also a name
    outside [HashValueType]) and every value, [null] and [undefined]
    included, it returns normally; it returns a boolean for a non-string
    value, and for a string when the type is absent, empty or one of the
    five names of [HashValueType]. *)
Theorem validate_never_throws `{BufferLib} :
  (forall type value, exists v, validate type value = Ok v)
  /\ (forall type value,
        (type = None \/ type = Some EmptyString
         \/ (exists t, type = Some t /\ In t hash_value_types)
         \/ (forall s, value <> JStr s)) ->
        exists b, validate type value = Ok (JBool b)).
Proof.
  split.
  - intros type value. destruct value; simpl; eauto.
    destruct type as [t |].
    + destruct (String.eqb t EmptyString); [| eexists; reflexivity].
      destruct (regex_test false bcryptHashPattern s); eexists; reflexivity.
    + destruct (regex_test false bcryptHashPattern s); eexists; reflexivity.
  - intros type value Ht.
    destruct value as [| | | | s | | |]; simpl; eauto.
    destruct Ht as [-> | [-> | [(t & -> & Hin) | Hv]]].
    + destruct (regex_test false bcryptHashPattern s); eexists; reflexivity.
    + destruct (regex_test false bcryptHashPattern s); eexists; reflexivity.
    + unfold hash_value_types in Hin; simpl in Hin.
      destruct Hin as [<- | [<- | [<- | [<- | [<- | []]]]]]; simpl; eexists; reflexivity.
    + exfalso; eapply Hv; reflexivity.
Qed.

Lemma validate_never_throws_witness :
  (Some "sha1"%string = None \/ Some "sha1"%string = Some EmptyString
   \/ (exists t, Some "sha1"%string = Some t /\ In t hash_value_types)
   \/ (forall s, JStr (js "abc") <> JStr s))
  /\ exists b, validate (Some "sha1"%string) (JStr (js "abc")) = Ok (JBool b).
Proof.
  assert (Ht : Some "sha1"%string = None \/ Some "sha1"%string = Some EmptyString
               \/ (exists t, Some "sha1"%string = Some t /\ In t hash_value_types)
               \/ (forall s, JStr (js "abc") <> JStr s)).
  { right; right; left. exists "sha1"%string. split; [reflexivity | simpl; tauto]. }
  split; [exact Ht |].
  destruct (validate_never_throws (H := ascii_buffer)) as (_ & H).
  exact (H _ _ Ht).
Defined.

(** ** Argon2Service: where the constructor options are used *)

(** X4: [Argon2Service.compare] chooses its options exactly as [hash] does,
    and the constructor options reach argon2 only when a call passes [null]
    as options: for any other argument (absent included) [hash] and
    [compare] give the same result whatever the constructor received. *)
Theorem argon2_constructor_options_only_for_null `{Argon2Lib} `{Argon2VerifyLib} :
  (forall svc arg, Argon2Service_compare_options svc arg = Argon2Service_hash_options svc arg)
  /\ (forall svc svc' data encrypted arg, arg <> ArgNull ->
        Argon2Service_hash svc data arg = Argon2Service_hash svc' data arg
        /\ Argon2Service_compare svc data encrypted arg
           = Argon2Service_compare svc' data encrypted arg)
  /\ (forall svc data encrypted,
        Argon2Service_hash svc data ArgNull = argon2_hash data (a2_options svc)
        /\ Argon2Service_compare svc data encrypted ArgNull
           = argon2_verify encrypted data (a2_options svc)).
Proof.
  split; [| split].
  - reflexivity.
  - intros svc svc' data encrypted [| | o] Hn; [split; reflexivity | congruence | split; reflexivity].
  - intros [[o |]] data encrypted; split; reflexivity.
Qed.

Lemma argon2_constructor_options_only_for_null_witness :
  Argon2Service_hash {| a2_options := Some {| memoryCost := Some 8192%Z; timeCost := None;
                                             parallelism := None; hashLength := None |} |}
    (BStr (js "pw")) ArgUndefined
  = Argon2Service_hash {| a2_options := None |} (BStr (js "pw")) ArgUndefined.
Proof.
  destruct argon2_constructor_options_only_for_null as (_ & H & _).
  apply (H _ _ _ (js "enc") _). discriminate.
Defined.

(** ** Pbkdf2Strategy.compare *)

Lemma Pbkdf2_compare_spec `{CryptoLib} st data hashed arg :
  Pbkdf2_compare st data hashed arg
  = (let* h := Pbkdf2_hash st data arg in
     let* e := binary_toString_base64 hashed in Ok (jsstring_eqb h e)).
Proof.
  destruct arg as [| | o].
  - unfold Pbkdf2_compare; simpl.
    rewrite (Pbkdf2_hash_options_ext st data (ArgValue _) ArgUndefined); [reflexivity |].
    simpl. now rewrite getFinalOptions_own, getFinalOptions_idem.
  - reflexivity.
  - unfold Pbkdf2_compare; simpl.
    rewrite (Pbkdf2_hash_options_ext st data (ArgValue _) (ArgValue o)); [reflexivity |].
    simpl. now rewrite getFinalOptions_idem.
Qed.

(** X5: [compare(data, hashed, options)] recomputes [hash(data, options)]
    (with the same defaults for an absent argument), then reads
    [hashed.toString('base64')] (a string as it is, a [Buffer] as its
    base64 text, refused when longer than [kMaxLength]) and returns whether
    the two are equal; it throws exactly when one of these two steps
    throws. *)
Theorem pbkdf2_compare_recomputes_hash `{CryptoLib} st data hashed arg :
  Pbkdf2_compare st data hashed arg
  = (let* h := Pbkdf2_hash st data arg in
     let* e := binary_toString_base64 hashed in Ok (jsstring_eqb h e)).
Proof. apply Pbkdf2_compare_spec. Qed.

(** ** Node's base64 codec *)

Lemma lor_shiftl_low a b k : (b < 2^k)%N -> N.lor (N.shiftl a k) b = (a * 2^k + b)%N.
Proof.
  intros Hb. rewrite N.shiftl_mul_pow2.
  assert (H0 : N.land (a * 2^k) b = 0%N).
  { apply N.bits_inj; intros i. rewrite N.land_spec, N.bits_0.
    destruct (N.lt_ge_cases i k).
    - now rewrite N.mul_pow2_bits_low.
    - rewrite <- (N.mod_small b (2^k)) by exact Hb. rewrite N.mod_pow2_bits_high by lia.
      apply andb_false_r. }
  rewrite <- N.lxor_lor by exact H0. now rewrite N.add_nocarry_lxor.
Qed.

Lemma land_ones_mod a n m : m = N.ones n -> N.land a m = (a mod 2^n)%N.
Proof. intros ->. apply N.land_ones. Qed.

(** A property of all [N] below a bound, checked by evaluation. *)
Lemma N_below_check (n : nat) (P : N -> bool) :
  forallb P (map N.of_nat (seq 0 n)) = true -> forall a, (a < N.of_nat n)%N -> P a = true.
Proof.
  intros Hc a Ha. rewrite forallb_forall in Hc. apply Hc.
  apply in_map_iff. exists (N.to_nat a); split; [apply N2Nat.id |].
  apply in_seq. lia.
Qed.

Lemma N_below_check2 (n : nat) (P : N -> N -> bool) :
  forallb (fun a => forallb (P a) (map N.of_nat (seq 0 n))) (map N.of_nat (seq 0 n)) = true ->
  forall a b, (a < N.of_nat n)%N -> (b < N.of_nat n)%N -> P a b = true.
Proof.
  intros Hc a b Ha Hb.
  apply (N_below_check n (fun b => P a b)); [| exact Hb].
  exact (N_below_check n (fun a => forallb (P a) (map N.of_nat (seq 0 n))) Hc a Ha).
Qed.

Lemma unbase64_char v : (v < 64)%N -> unbase64 (base64_char v) = Some v.
Proof.
  intros Hv.
  assert (Hc := N_below_check 64
                  (fun v => match unbase64 (base64_char v) with
                            | Some w => (w =? v)%N | None => false end)
                  ltac:(vm_compute; reflexivity) v Hv).
  cbv beta in Hc. destruct (unbase64 (base64_char v)); [| discriminate]. apply N.eqb_eq in Hc; congruence.
Qed.

Lemma base64_values_cons v c rest :
  unbase64 c = Some v -> base64_values (c :: rest) = v :: base64_values rest.
Proof. intros E; simpl; rewrite E; reflexivity. Qed.

Lemma base64_values_pad rest : base64_values (61%N :: rest) = [].
Proof. reflexivity. Qed.

Lemma base64_join1 a b : (a < 64)%N -> (b < 64)%N ->
  N.lor (N.shiftl (N.land a 63) 2) (N.shiftr (N.land b 48) 4) = (a * 4 + b / 16)%N.
Proof.
  intros Ha Hb. apply N.eqb_eq.
  exact (N_below_check2 64
           (fun a b => N.lor (N.shiftl (N.land a 63) 2) (N.shiftr (N.land b 48) 4)
                       =? a * 4 + b / 16)%N ltac:(vm_compute; reflexivity) a b Ha Hb).
Qed.

Lemma base64_join2 b c : (b < 64)%N -> (c < 64)%N ->
  N.lor (N.shiftl (N.land b 15) 4) (N.shiftr (N.land c 60) 2) = ((b mod 16) * 16 + c / 4)%N.
Proof.
  intros Hb Hc. apply N.eqb_eq.
  exact (N_below_check2 64
           (fun b c => N.lor (N.shiftl (N.land b 15) 4) (N.shiftr (N.land c 60) 2)
                       =? (b mod 16) * 16 + c / 4)%N ltac:(vm_compute; reflexivity) b c Hb Hc).
Qed.

Lemma base64_join3 c d : (c < 64)%N -> (d < 64)%N ->
  N.lor (N.shiftl (N.land c 3) 6) (N.land d 63) = ((c mod 4) * 64 + d)%N.
Proof.
  intros Hc Hd. apply N.eqb_eq.
  exact (N_below_check2 64
           (fun c d => N.lor (N.shiftl (N.land c 3) 6) (N.land d 63)
                       =? (c mod 4) * 64 + d)%N ltac:(vm_compute; reflexivity) c d Hc Hd).
Qed.

Lemma base64_sextet1 a b : (b < 256)%N ->
  N.lor (N.shiftl (N.land a 3) 4) (N.shiftr b 4) = ((a mod 4) * 16 + b / 16)%N.
Proof.
  intros Hb. rewrite (land_ones_mod a 2 3) by reflexivity.
  rewrite N.shiftr_div_pow2, lor_shiftl_low; [reflexivity |].
  change (2^4)%N with 16%N. change (2^2)%N with 4%N. narith.
Qed.

Lemma base64_sextet2 a b : (b < 256)%N ->
  N.lor (N.shiftl (N.land a 15) 2) (N.shiftr b 6) = ((a mod 16) * 4 + b / 64)%N.
Proof.
  intros Hb. rewrite (land_ones_mod a 4 15) by reflexivity.
  rewrite N.shiftr_div_pow2, lor_shiftl_low; [reflexivity |].
  change (2^6)%N with 64%N. change (2^2)%N with 4%N. narith.
Qed.

Lemma base64_shifts a :
  N.shiftr a 2 = (a / 4)%N /\ N.shiftl (N.land a 3) 4 = ((a mod 4) * 16)%N
  /\ N.shiftl (N.land a 15) 2 = ((a mod 16) * 4)%N /\ N.land a 63 = (a mod 64)%N.
Proof.
  rewrite N.shiftr_div_pow2, !N.shiftl_mul_pow2, (land_ones_mod a 2 3), (land_ones_mod a 4 15),
    (land_ones_mod a 6 63) by reflexivity.
  repeat split.
Qed.

(** Decoding the encoding of a byte sequence gives the bytes back. *)
Lemma base64_roundtrip : forall b, Forall (fun x => (x < 256)%N) b ->
  base64_decode_node (base64_encode_node b) = b.
Proof.
  fix IH 1. intros [| b0 [| b1 [| b2 rest]]] Hb.
  - reflexivity.
  - apply Forall_cons_iff in Hb as [H0 _].
    destruct (base64_shifts b0) as (E1 & E2 & _).
    cbn [base64_encode_node]. rewrite E1, E2. unfold base64_decode_node.
    rewrite (base64_values_cons (b0 / 4)) by (apply unbase64_char; narith).
    rewrite (base64_values_cons ((b0 mod 4) * 16)) by (apply unbase64_char; narith).
    rewrite base64_values_pad. cbn [base64_join].
    rewrite base64_join1 by narith. f_equal. narith.
  - apply Forall_cons_iff in Hb as [H0 Hb]. apply Forall_cons_iff in Hb as [H1 _].
    destruct (base64_shifts b0) as (E1 & _).
    destruct (base64_shifts b1) as (_ & _ & E3 & _).
    cbn [base64_encode_node]. rewrite E1, (base64_sextet1 b0 b1 H1), E3.
    unfold base64_decode_node.
    rewrite (base64_values_cons (b0 / 4)) by (apply unbase64_char; narith).
    rewrite (base64_values_cons ((b0 mod 4) * 16 + b1 / 16)) by (apply unbase64_char; narith).
    rewrite (base64_values_cons ((b1 mod 16) * 4)) by (apply unbase64_char; narith).
    rewrite base64_values_pad. cbn [base64_join].
    rewrite base64_join1, base64_join2 by narith. f_equal; [narith | f_equal; narith].
  - apply Forall_cons_iff in Hb as [H0 Hb]. apply Forall_cons_iff in Hb as [H1 Hb].
    apply Forall_cons_iff in Hb as [H2 Hr].
    destruct (base64_shifts b0) as (E1 & _).
    destruct (base64_shifts b2) as (_ & _ & _ & E4).
    cbn [base64_encode_node].
    rewrite E1, (base64_sextet1 b0 b1 H1), (base64_sextet2 b1 b2 H2), E4.
    unfold base64_decode_node.
    rewrite (base64_values_cons (b0 / 4)) by (apply unbase64_char; narith).
    rewrite (base64_values_cons ((b0 mod 4) * 16 + b1 / 16)) by (apply unbase64_char; narith).
    rewrite (base64_values_cons ((b1 mod 16) * 4 + b2 / 64)) by (apply unbase64_char; narith).
    rewrite (base64_values_cons (b2 mod 64)) by (apply unbase64_char; narith).
    cbn [base64_join].
    change (base64_join (base64_values (base64_encode_node rest)))
      with (base64_decode_node (base64_encode_node rest)).
    rewrite (IH rest Hr).
    rewrite base64_join1, base64_join2, base64_join3 by narith.
    f_equal; [narith | f_equal; [narith | f_equal; narith]].
Qed.

(** X6: with Node's base64, [compare(data, Buffer.from(h, 'base64'),
    options)] is [true] whenever [h = hash(data, options)]: the stored hash
    may be kept as a [Buffer] of its decoded bytes. *)
Theorem pbkdf2_compare_accepts_decoded_hash (L : CryptoLib) :
  (forall b, base64_encode b = base64_encode_node b) ->
  (forall pw salt i k d out, pbkdf2_core pw salt i k d = Ok out -> Forall (fun x => (x < 256)%N) out) ->
  forall st data arg h, Pbkdf2_hash st data arg = Ok h ->
  Pbkdf2_compare st data (BBuf (base64_decode_node h)) arg = Ok true.
Proof.
  intros Hb64 Hcore st data arg h Hh. rewrite Pbkdf2_compare_spec, Hh; simpl.
  unfold Pbkdf2_hash in Hh.
  destruct (Pbkdf2_hash_options st arg) as [f |]; simpl in Hh; [| discriminate].
  destruct (crypto_pbkdf2 data (pb_salt f) (pb_iterations f) (pb_keylen f) (pb_digest f))
    as [out |] eqn:Ec; simpl in Hh; [| discriminate].
  assert (Hout : Forall (fun x => (x < 256)%N) out).
  { unfold crypto_pbkdf2 in Ec.
    destruct (pb_salt f), (pb_iterations f), (pb_keylen f), (pb_digest f); try discriminate.
    exact (Hcore _ _ _ _ _ _ Ec). }
  unfold buffer_toString_base64 in *. rewrite Hb64 in Hh |- *.
  destruct (exceeds_kMaxLength (List.length (base64_encode_node out))) eqn:Ex; [discriminate |].
  injection Hh as <-. rewrite base64_roundtrip, Ex by exact Hout. simpl.
  now rewrite jsstring_eqb_refl.
Qed.

Lemma pbkdf2_compare_accepts_decoded_hash_witness :
  @Pbkdf2_hash node_base64_crypto (Pbkdf2Strategy_new (repeat 7%N 16) None)
    (BStr (js "pw")) ArgUndefined
  = Ok (base64_encode_node (map (fun x => x mod 256)%N (repeat 7%N 16 ++ js "pw")))
  /\ @Pbkdf2_compare node_base64_crypto (Pbkdf2Strategy_new (repeat 7%N 16) None)
       (BStr (js "pw"))
       (BBuf (base64_decode_node
                (base64_encode_node (map (fun x => x mod 256)%N (repeat 7%N 16 ++ js "pw")))))
       ArgUndefined = Ok true.
Proof.
  assert (Hh : @Pbkdf2_hash node_base64_crypto (Pbkdf2Strategy_new (repeat 7%N 16) None)
                 (BStr (js "pw")) ArgUndefined
               = Ok (base64_encode_node (map (fun x => x mod 256)%N (repeat 7%N 16 ++ js "pw"))))
    by (vm_compute; reflexivity).
  split; [exact Hh |].
  apply (pbkdf2_compare_accepts_decoded_hash node_base64_crypto); [reflexivity | | exact Hh].
  intros pw salt i k d out E. injection E as <-.
  apply Forall_forall; intros x Hx. apply in_map_iff in Hx as (y & <- & _).
  apply N.mod_lt; discriminate.
Defined.

(** ** Node's UTF-8 decoding *)

Lemma utf8_byte_init b : utf8_byte utf8_init b = utf8_lead b.
Proof. reflexivity. Qed.

Ltac bool_true := symmetry; repeat (apply andb_true_intro; split); apply N.leb_le; lia.

Lemma utf8_lead1 b : (b <= 127)%N -> utf8_lead b = ([b], utf8_init).
Proof. intros H. unfold utf8_lead. replace (b <=? 127)%N with true by bool_true. reflexivity. Qed.

Lemma utf8_lead2 b : (194 <= b <= 223)%N ->
  utf8_lead b = ([], {| u_cp := b mod 32; u_seen := 0; u_needed := 1; u_lower := 128;
                        u_upper := 191 |})%N.
Proof.
  intros H. unfold utf8_lead.
  destruct (N.leb_spec b 127); [lia |].
  replace ((194 <=? b) && (b <=? 223))%N with true by bool_true.
  rewrite (land_ones_mod b 5 31) by reflexivity. reflexivity.
Qed.

Lemma utf8_lead3 b : (224 <= b <= 239)%N ->
  utf8_lead b = ([], {| u_cp := b mod 16; u_seen := 0; u_needed := 2;
                        u_lower := if (b =? 224)%N then 160 else 128;
                        u_upper := if (b =? 237)%N then 159 else 191 |})%N.
Proof.
  intros H. unfold utf8_lead.
  destruct (N.leb_spec b 127); [lia |].
  replace ((194 <=? b) && (b <=? 223))%N with false
    by (symmetry; apply andb_false_iff; right; apply N.leb_gt; lia).
  replace ((224 <=? b) && (b <=? 239))%N with true by bool_true.
  rewrite (land_ones_mod b 4 15) by reflexivity. reflexivity.
Qed.

Lemma utf8_lead4 b : (240 <= b <= 244)%N ->
  utf8_lead b = ([], {| u_cp := b mod 8; u_seen := 0; u_needed := 3;
                        u_lower := if (b =? 240)%N then 144 else 128;
                        u_upper := if (b =? 244)%N then 143 else 191 |})%N.
Proof.
  intros H. unfold utf8_lead.
  destruct (N.leb_spec b 127); [lia |].
  replace ((194 <=? b) && (b <=? 223))%N with false
    by (symmetry; apply andb_false_iff; right; apply N.leb_gt; lia).
  replace ((224 <=? b) && (b <=? 239))%N with false
    by (symmetry; apply andb_false_iff; right; apply N.leb_gt; lia).
  replace ((240 <=? b) && (b <=? 244))%N with true by bool_true.
  rewrite (land_ones_mod b 3 7) by reflexivity. reflexivity.
Qed.

Lemma utf8_cont st b :
  u_needed st <> 0%N -> (u_lower st <= b <= u_upper st)%N ->
  utf8_byte st b =
  (if (u_seen st + 1 =? u_needed st)%N then ([u_cp st * 64 + b mod 64]%N, utf8_init)
   else ([], {| u_cp := u_cp st * 64 + b mod 64; u_seen := u_seen st + 1;
               u_needed := u_needed st; u_lower := 128; u_upper := 191 |}))%N.
Proof.
  intros Hn Hb. unfold utf8_byte.
  replace (u_needed st =? 0)%N with false by (symmetry; apply N.eqb_neq; exact Hn).
  replace ((u_lower st <=? b) && (b <=? u_upper st))%N with true by bool_true.
  rewrite (land_ones_mod b 6 63) by reflexivity.
  rewrite lor_shiftl_low by (apply N.mod_lt; discriminate).
  reflexivity.
Qed.

Ltac utf8_step :=
  rewrite utf8_cont by (simpl; lia); cbv [u_seen u_needed u_cp u_lower u_upper];
  repeat match goal with
  | |- context [(?a + 1 =? ?b)%N] =>
      let v := eval vm_compute in (a + 1 =? b)%N in change (a + 1 =? b)%N with v
  end;
  cbn [app utf8_run].

Lemma utf8_run2 b0 b1 r : (194 <= b0 <= 223)%N -> (128 <= b1 <= 191)%N ->
  utf8_run utf8_init (b0 :: b1 :: r) = ((b0 mod 32) * 64 + b1 mod 64)%N :: utf8_run utf8_init r.
Proof.
  intros H0 H1. cbn [utf8_run]. rewrite utf8_byte_init, utf8_lead2 by exact H0.
  cbn [app utf8_run]. utf8_step. reflexivity.
Qed.

Lemma utf8_run3 b0 b1 b2 r : (224 <= b0 <= 239)%N ->
  ((if (b0 =? 224)%N then 160 else 128) <= b1 <= (if (b0 =? 237)%N then 159 else 191))%N ->
  (128 <= b2 <= 191)%N ->
  utf8_run utf8_init (b0 :: b1 :: b2 :: r)
  = (((b0 mod 16) * 64 + b1 mod 64) * 64 + b2 mod 64)%N :: utf8_run utf8_init r.
Proof.
  intros H0 H1 H2. cbn [utf8_run]. rewrite utf8_byte_init, utf8_lead3 by exact H0.
  cbn [app utf8_run]. utf8_step.
  utf8_step. reflexivity.
Qed.

Lemma utf8_run4 b0 b1 b2 b3 r : (240 <= b0 <= 244)%N ->
  ((if (b0 =? 240)%N then 144 else 128) <= b1 <= (if (b0 =? 244)%N then 143 else 191))%N ->
  (128 <= b2 <= 191)%N -> (128 <= b3 <= 191)%N ->
  utf8_run utf8_init (b0 :: b1 :: b2 :: b3 :: r)
  = ((((b0 mod 8) * 64 + b1 mod 64) * 64 + b2 mod 64) * 64 + b3 mod 64)%N
    :: utf8_run utf8_init r.
Proof.
  intros H0 H1 H2 H3. cbn [utf8_run]. rewrite utf8_byte_init, utf8_lead4 by exact H0.
  cbn [app utf8_run]. utf8_step.
  utf8_step.
  utf8_step. reflexivity.
Qed.

Ltac eqb_cases :=
  repeat match goal with
  | |- context [(?a =? ?b)%N] => destruct (N.eqb_spec a b)
  end.

(** Decoding the UTF-8 bytes of a scalar value gives it back. *)
Lemma utf8_run_code_point cp r :
  (cp < 1114112)%N -> (cp < 55296 \/ 57343 < cp)%N ->
  utf8_run utf8_init (utf8_of_code_point cp ++ r) = cp :: utf8_run utf8_init r.
Proof.
  intros Hmax Hsur. unfold utf8_of_code_point.
  destruct (N.ltb_spec cp 128).
  { cbn [app utf8_run]. rewrite utf8_byte_init, utf8_lead1 by lia. reflexivity. }
  destruct (N.ltb_spec cp 2048).
  { cbn [app]. rewrite utf8_run2 by narith. f_equal. narith. }
  destruct (N.ltb_spec cp 65536).
  { cbn [app]. rewrite utf8_run3; [f_equal; narith | narith | eqb_cases; narith | narith]. }
  cbn [app]. rewrite utf8_run4; [f_equal; narith | narith | eqb_cases; narith | narith | narith].
Qed.

Lemma utf8_decode_code_point cp r :
  (cp < 1114112)%N -> (cp < 55296 \/ 57343 < cp)%N ->
  utf8_decode (utf8_of_code_point cp ++ r) = utf16_of_code_point cp ++ utf8_decode r.
Proof. intros H1 H2. unfold utf8_decode. rewrite utf8_run_code_point by assumption. reflexivity. Qed.

Lemma utf8_decode_replacement r :
  utf8_decode (utf8_of_code_point 65533 ++ r) = 65533%N :: utf8_decode r.
Proof. apply utf8_decode_code_point; lia. Qed.

(** Decoding the UTF-8 encoding of a string gives the string with its lone
    surrogates replaced by U+FFFD. *)
Lemma utf8_roundtrip : forall s, Forall (fun c => (c < 65536)%N) s ->
  utf8_decode (utf8_encode s) = to_well_formed s.
Proof.
  fix IH 1. intros [| c rest] Hs; [reflexivity |].
  apply Forall_cons_iff in Hs as [Hc Hr].
  pose proof (IH rest Hr) as IHr.
  cbn [utf8_encode to_well_formed].
  destruct (is_high_surrogate c) eqn:Eh.
  - destruct rest as [| d rest'].
    + reflexivity.
    + apply Forall_cons_iff in Hr as Hr'. destruct Hr' as [Hd Hr'].
      destruct (is_low_surrogate d) eqn:El.
      * unfold is_high_surrogate, is_low_surrogate in *.
        apply andb_true_iff in Eh as [Eh1 Eh2]; apply andb_true_iff in El as [El1 El2].
        apply N.leb_le in Eh1, Eh2, El1, El2.
        rewrite utf8_decode_code_point by lia. rewrite (IH rest' Hr').
        unfold utf16_of_code_point. destruct (N.ltb_spec (65536 + (c - 55296) * 1024 + (d - 56320)) 65536); [lia |].
        cbn [app]. f_equal; [narith | f_equal; narith].
      * rewrite utf8_decode_replacement, IHr. reflexivity.
  - destruct (is_low_surrogate c) eqn:El.
    + rewrite utf8_decode_replacement, IHr. reflexivity.
    + unfold is_high_surrogate, is_low_surrogate in *.
      rewrite utf8_decode_code_point
        by (try lia; destruct (N.leb_spec 55296 c), (N.leb_spec c 56319),
                       (N.leb_spec 56320 c), (N.leb_spec c 57343); simpl in *; try discriminate; lia).
      rewrite IHr. unfold utf16_of_code_point.
      destruct (N.ltb_spec c 65536); [reflexivity | lia].
Qed.

Lemma to_well_formed_id : forall s, well_formed_utf16 s = true -> to_well_formed s = s.
Proof.
  fix IH 1. intros [| c rest] Hs; [reflexivity |].
  cbn [well_formed_utf16 to_well_formed] in *.
  destruct (is_high_surrogate c).
  - destruct rest as [| d rest']; [discriminate |].
    apply andb_true_iff in Hs as [Hd Hr]. rewrite Hd, (IH rest' Hr). reflexivity.
  - apply andb_true_iff in Hs as [Hl Hr]. destruct (is_low_surrogate c); [discriminate |].
    rewrite (IH rest Hr). reflexivity.
Qed.

(** ** RsaService.encrypt and decrypt *)

(** X7: with a key pair whose [privateDecrypt] undoes [publicEncrypt],
    [decrypt(encrypt(data, publicKey), privateKey)] returns the UTF-8
    decoding of [data]'s bytes; for a string it returns the string with
    lone surrogates replaced by U+FFFD, hence the string itself when it has
    none. *)
Theorem rsa_encrypt_decrypt_roundtrip (L : RsaCipherLib) publicKey privateKey :
  (forall m c, publicEncrypt (rsa_oaep_key publicKey) m = Ok c ->
     Forall (fun x => (x < 256)%N) c /\ privateDecrypt (rsa_oaep_key privateKey) c = Ok m) ->
  (forall data e, RsaService_encrypt data publicKey = Ok e ->
     RsaService_decrypt e privateKey = Ok (utf8_decode (binary_bytes data)))
  /\ (forall s e, Forall (fun c => (c < 65536)%N) s ->
        RsaService_encrypt (BStr s) publicKey = Ok e ->
        RsaService_decrypt e privateKey = Ok (to_well_formed s)
        /\ (well_formed_utf16 s = true -> RsaService_decrypt e privateKey = Ok s)).
Proof.
  intros Hkey.
  assert (H1 : forall data e, RsaService_encrypt data publicKey = Ok e ->
                 RsaService_decrypt e privateKey = Ok (utf8_decode (binary_bytes data))).
  { intros data e He. unfold RsaService_encrypt in He.
    destruct (publicEncrypt (rsa_oaep_key publicKey) (binary_bytes data)) as [c |] eqn:Ee;
      [| discriminate].
    injection He as <-. destruct (Hkey _ _ Ee) as [Hc Hd].
    unfold RsaService_decrypt. rewrite base64_roundtrip by exact Hc. rewrite Hd. reflexivity. }
  split; [exact H1 |].
  intros s e Hs He. apply H1 in He. simpl in He. rewrite utf8_roundtrip in He by exact Hs.
  split; [exact He |]. intros Hw. rewrite to_well_formed_id in He by exact Hw. exact He.
Qed.

Lemma rsa_encrypt_decrypt_roundtrip_witness :
  @RsaService_encrypt identity_cipher (BStr (js "hello")) (js "public")
  = Ok (base64_encode_node (utf8_encode (js "hello")))
  /\ @RsaService_decrypt identity_cipher
       (base64_encode_node (utf8_encode (js "hello"))) (js "private") = Ok (js "hello").
Proof.
  assert (He : @RsaService_encrypt identity_cipher (BStr (js "hello")) (js "public")
               = Ok (base64_encode_node (utf8_encode (js "hello")))) by (vm_compute; reflexivity).
  split; [exact He |].
  assert (Hkey : forall m c, @publicEncrypt identity_cipher (rsa_oaep_key (js "public")) m = Ok c ->
                   Forall (fun x => (x < 256)%N) c
                   /\ @privateDecrypt identity_cipher (rsa_oaep_key (js "private")) c = Ok m).
  { intros m c E. simpl in E. destruct (forallb (fun x => (x <? 256)%N) m) eqn:Em; [| discriminate].
    injection E as <-. split; [| reflexivity].
    apply Forall_forall; intros x Hx. rewrite forallb_forall in Em. apply N.ltb_lt, Em, Hx. }
  destruct (rsa_encrypt_decrypt_roundtrip identity_cipher _ _ Hkey) as (_ & H2).
  apply (H2 (js "hello")); [repeat constructor | exact He | reflexivity].
Defined.
